(** * containerd: execution service and rootfs chain identifiers

    A shallow embedding of [execution/service.go] and [rootfs/chainid.go].

    Go values are modelled as follows.
    - A slice is a window [(arr, off, len, cap)] onto a backing array that
      lives in a heap of arrays, so that in-place writes and aliasing are
      visible ([rootfs]).
    - A run-time panic is an outcome of its own, distinct from a returned
      error value.
    - Calls that leave the service (executor calls, signals, waits, event
      publication, goroutine spawns) are appended to a trace, in program
      order.
    - Interfaces the service consumes ([Executor], [Process]) are records
      of the answers their methods give. *)

From stdpp Require Import base list strings option.
From Stdlib Require Import ZArith Ascii.

Open Scope string_scope.
Open Scope list_scope.
Open Scope nat_scope.

(** ** Go run-time outcomes *)

Inductive Panic : Type :=
  | IndexOutOfRange
  | SliceBoundsOutOfRange.

Inductive Outcome (A : Type) : Type :=
  | Returned (a : A)
  | Panicked (p : Panic).

Arguments Returned {A} a.
Arguments Panicked {A} p.

#[export] Instance Outcome_ret : MRet Outcome := λ A a, Returned a.

#[export] Instance Outcome_bind : MBind Outcome := λ A B k o,
  match o with
  | Returned a => k a
  | Panicked p => Panicked p
  end.

(** ** rootfs/chainid.go *)

Module rootfs.

(** [digest.Digest] is a string type. *)
Definition Digest : Type := string.

(** The heap of backing arrays; an address is a position in it. *)
Abbreviation Heap := (list (list Digest)).

Record Slice : Type := mkSlice
  { arr : nat; off : nat; len : nat; cap : nat }.

(** A slice the Go run time can hand out: its window lies inside its
    backing array. *)
Definition valid (h : Heap) (s : Slice) : Prop :=
  ∃ a, h !! arr s = Some a ∧ len s ≤ cap s ∧ off s + cap s ≤ length a.

(** [s[i]] *)
Definition index (s : Slice) (i : nat) (h : Heap) : Outcome Digest :=
  if decide (i < len s) then
    match h !! arr s ≫= (.!! (off s + i)) with
    | Some d => Returned d
    | None => Panicked IndexOutOfRange
    end
  else Panicked IndexOutOfRange.

(** [s[i] = d] *)
Definition assign (s : Slice) (i : nat) (d : Digest) (h : Heap) : Outcome Heap :=
  if decide (i < len s) then
    match h !! arr s with
    | Some a => Returned (<[arr s := <[off s + i := d]> a]> h)
    | None => Panicked IndexOutOfRange
    end
  else Panicked IndexOutOfRange.

(** [s[lo:]] *)
Definition slice_from (s : Slice) (lo : nat) : Outcome Slice :=
  if decide (lo ≤ len s) then
    Returned {| arr := arr s; off := off s + lo;
                len := len s - lo; cap := cap s - lo |}
  else Panicked SliceBoundsOutOfRange.

(** [make([]digest.Digest, n)]: a fresh zeroed array at the next address. *)
Definition make (n : nat) (h : Heap) : Slice * Heap :=
  ({| arr := length h; off := 0; len := n; cap := n |},
   h ++ [replicate n ""]).

(** The elements of a slice, in order. *)
Definition elements (s : Slice) (h : Heap) : list Digest :=
  match h !! arr s with
  | Some a => take (len s) (drop (off s) a)
  | None => []
  end.

(** Overwrite the cells of [a] from position [o] on with [ds]. *)
Fixpoint write_at (o : nat) (ds : list Digest) (a : list Digest) : list Digest :=
  match ds with
  | [] => a
  | d :: ds' => write_at (S o) ds' (<[o := d]> a)
  end.

(** [copy(dst, src)]: the first [min(len(dst), len(src))] elements. *)
Definition copy (dst src : Slice) (h : Heap) : Heap :=
  let ds := take (len dst) (elements src h) in
  match h !! arr dst with
  | Some a => <[arr dst := write_at (off dst) ds a]> h
  | None => h
  end.

(** The content of cell [i] of the array at address [a]. *)
Definition cell (h : Heap) (a i : nat) : option Digest :=
  h !! a ≫= (.!! i).

(** Two heaps with the same arrays of the same sizes. *)
Definition same_shape (h h' : Heap) : Prop :=
  length <$> h' = length <$> h.

Section ChainID.

(** [digest.FromBytes([]byte(s))], the canonical digest of a string. *)
Variable FromBytes : string → Digest.

(** [ChainIDs], by recursion on the length of the slice; [n] is
    [len(dgsts)] throughout. *)
Fixpoint ChainIDs_len (n : nat) (dgsts : Slice) (h : Heap) : Outcome Heap :=
  match n with
  | 0 | 1 => Returned h
  | S n' =>
      d0 ← index dgsts 0 h;
      d1 ← index dgsts 1 h;
      let parent := FromBytes (d0 +:+ " " +:+ d1) in
      next ← slice_from dgsts 1;
      h' ← assign next 0 parent h;
      ChainIDs_len n' next h'
  end.

Definition ChainIDs (dgsts : Slice) (h : Heap) : Outcome (Slice * Heap) :=
  h' ← ChainIDs_len (len dgsts) dgsts h;
  mret (dgsts, h').

Definition ChainID (dgsts : Slice) (h : Heap) : Outcome (Digest * Heap) :=
  let '(chainIDs, h1) := make (len dgsts) h in
  let h2 := copy chainIDs dgsts h1 in
  '(_, h3) ← ChainIDs chainIDs h2;
  if decide (len chainIDs = 0) then mret ("", h3)
  else d ← index chainIDs (len chainIDs - 1) h3;
       mret (d, h3).

(** The chain identifiers of a sequence of digests as a list, the way
    the comment of [ChainIDs] writes them: [[A; B; C]] gives
    [[A; ChainID(A|B); ChainID(A|B|C)]].  [chain_from parent l] continues
    a chain whose last identifier is [parent]. *)
Fixpoint chain_from (parent : Digest) (l : list Digest) : list Digest :=
  match l with
  | [] => []
  | d :: l' =>
      let next := FromBytes (parent +:+ " " +:+ d) in
      next :: chain_from next l'
  end.

Definition chain (l : list Digest) : list Digest :=
  match l with
  | [] => []
  | d :: l' => d :: chain_from d l'
  end.

End ChainID.

(** [s[:hi]] *)
Definition slice_to (s : Slice) (hi : nat) : Outcome Slice :=
  if decide (hi ≤ cap s) then
    Returned {| arr := arr s; off := off s; len := hi; cap := cap s |}
  else Panicked SliceBoundsOutOfRange.

(** Two slices whose windows share no cell. *)
Definition disjoint (s s' : Slice) : Prop :=
  arr s ≠ arr s' ∨ off s + len s ≤ off s' ∨ off s' + len s' ≤ off s.

End rootfs.

(** ** execution/service.go *)

Module execution.

(** *** Data the service reads and produces *)

(** Container and process statuses are values of a string type: the switch
    in [toGRPCContainer] compares them with string literals. *)
Definition Status : Type := string.

(** Go [error] values, compared by identity.  [ErrProcessNotFound] is the
    package-level sentinel, [Errorf msg] a value built at the call site by
    [fmt.Errorf], [Foreign n] any other error handed back by the executor
    or by a process. *)
Inductive error : Type :=
  | ErrProcessNotFound
  | Errorf (msg : string)
  | Foreign (n : nat).

(** [os.Kill], that is [syscall.SIGKILL]. *)
Definition os_Kill : Z := 9%Z.

(** The [Process] interface: what its methods answer. *)
Record Process : Type := mkProcess
  { Process_ID : string;
    Process_Pid : Z;
    Process_Status : Status;
    Process_Signal : Z → option error;
    Process_Wait : Z + error }.

(** [*Container].  Its declaration is outside this file; the record lists
    what the service reads from it: the methods [ID()], [Bundle()],
    [Status()], [Processes()] and [GetProcess(id)], and the field
    [processes] that [New] ranges over. *)
Record Container : Type := mkContainer
  { Container_ID : string;
    Container_Bundle : string;
    Container_Status : Status;
    Container_processes : list Process;
    Container_Processes : list Process;
    Container_GetProcess : string → option Process }.

Record ContainerEvent : Type := mkContainerEvent
  { Timestamp : Z;
    ID : string;
    Action : string }.

Record ContainerExitEvent : Type := mkContainerExitEvent
  { Event : ContainerEvent;
    PID : string;
    StatusCode : Z }.

Record CreateOpts : Type := mkCreateOpts
  { CreateOpts_Bundle : string;
    CreateOpts_Console : bool;
    CreateOpts_Stdin : string;
    CreateOpts_Stdout : string;
    CreateOpts_Stderr : string }.

(** [specs.Box] *)
Record Box : Type := mkBox
  { Height : Z;
    Width : Z }.

(** [specs.Process], with the fields the composite literal in
    [StartProcess] sets; every other field keeps its zero value. *)
Record specs_Process : Type := mkSpecsProcess
  { Terminal : bool;
    ConsoleSize : Box;
    Args : list string;
    Env : list string;
    Cwd : string;
    NoNewPrivileges : bool }.

Record StartProcessOpts : Type := mkStartProcessOpts
  { StartProcessOpts_ID : string;
    StartProcessOpts_Spec : specs_Process;
    StartProcessOpts_Console : bool;
    StartProcessOpts_Stdin : string;
    StartProcessOpts_Stdout : string;
    StartProcessOpts_Stderr : string }.

(** *** Wire types of package [api] *)

(** [api.Status] is an [int32] enumeration; its zero value is [0]. *)
Definition api_Status : Type := Z.

Record api_Container : Type := mkApiContainer
  { api_Container_ID : string;
    api_Container_BundlePath : string;
    api_Container_Status : api_Status }.

Record api_Process : Type := mkApiProcess
  { api_Process_ID : string;
    api_Process_Pid : Z;
    api_Process_Args : list string;
    api_Process_Env : list string;
    api_Process_Cwd : string;
    api_Process_Terminal : bool }.

Record CreateContainerRequest : Type := mkCreateContainerRequest
  { Create_ID : string;
    Create_BundlePath : string;
    Create_Console : bool;
    Create_Stdin : string;
    Create_Stdout : string;
    Create_Stderr : string }.

Record StartProcessRequest : Type := mkStartProcessRequest
  { StartProcess_ContainerID : string;
    StartProcess_Process : api_Process;
    StartProcess_Console : bool;
    StartProcess_Stdin : string;
    StartProcess_Stdout : string;
    StartProcess_Stderr : string }.

Record ProcessRequest : Type := mkProcessRequest
  { Req_ContainerID : string;
    Req_ProcessID : string }.

Record SignalProcessRequest : Type := mkSignalProcessRequest
  { Signal_ContainerID : string;
    Signal_ProcessID : string;
    Signal_Signal : Z }.

Record CreateContainerResponse : Type := mkCreateContainerResponse
  { Create_Container : api_Container;
    Create_InitProcess : api_Process }.

Record ListContainersResponse : Type := mkListContainersResponse
  { List_Containers : list api_Container }.

Record GetContainerResponse : Type := mkGetContainerResponse
  { Get_Container : api_Container }.

Record StartProcessResponse : Type := mkStartProcessResponse
  { StartProcess_Response_Process : api_Process }.

Record GetProcessResponse : Type := mkGetProcessResponse
  { GetProcess_Process : api_Process }.

Record ListProcessesResponse : Type := mkListProcessesResponse
  { ListProcesses_Processes : list api_Process }.

(** [google_protobuf.Empty] *)
Inductive Empty : Type := mkEmpty.

(** [emptyResponse = &google_protobuf.Empty{}]: a non-nil pointer. *)
Definition emptyResponse : option Empty := Some mkEmpty.

(** *** The executor *)

(** The [Executor] interface: what each method answers.  A Go result
    [(v, err)] is [inl v] when [err] is nil and [inr err] otherwise; a
    lone [error] result is [None] when nil. *)
Record Executor : Type := mkExecutor
  { exec_List : list Container + error;
    exec_Load : string → Container + error;
    exec_Create : string → CreateOpts → Container + error;
    exec_Delete : Container → option error;
    exec_Pause : Container → option error;
    exec_Resume : Container → option error;
    exec_Start : Container → option error;
    exec_StartProcess : Container → StartProcessOpts → Process + error;
    exec_DeleteProcess : Container → string → option error }.

Record Service : Type := mkService
  { executor : Executor }.

(** *** Effects *)

(** What the service does to the outside, in program order. *)
Inductive Call : Type :=
  | ExecutorList
  | ExecutorLoad (id : string)
  | ExecutorCreate (id : string) (o : CreateOpts)
  | ExecutorDelete (c : Container)
  | ExecutorPause (c : Container)
  | ExecutorResume (c : Container)
  | ExecutorStart (c : Container)
  | ExecutorStartProcess (c : Container) (o : StartProcessOpts)
  | ExecutorDeleteProcess (c : Container) (id : string)
  | ProcessSignal (p : Process) (sig : Z)
  | ProcessWait (p : Process)
  | Post (topic : string) (v : ContainerExitEvent)
  | Go (c : Container) (p : Process).

(** A computation reads the number of clock readings taken so far and
    yields its outcome, the calls it made and the new number of readings. *)
Definition M (A : Type) : Type := nat → Outcome A * list Call * nat.

#[export] Instance M_ret : MRet M := λ A a t, (Returned a, [], t).

#[export] Instance M_bind : MBind M := λ A B k m t,
  match m t with
  | (Returned a, tr, t') =>
      let '(o, tr', t'') := k a t' in (o, tr ++ tr', t'')
  | (Panicked p, tr, t') => (Panicked p, tr, t')
  end.

Definition call (c : Call) : M unit := λ t, (Returned (), [c], t).

Definition lift {A} (o : Outcome A) : M A := λ t, (o, [], t).

(** [for _, x := range l { body }] *)
Fixpoint range {A} (l : list A) (body : A → M unit) : M unit :=
  match l with
  | [] => mret ()
  | x :: l' => body x ;; range l' body
  end.

Definition outcome {A} (r : Outcome A * list Call * nat) : Outcome A := r.1.1.
Definition calls {A} (r : Outcome A * list Call * nat) : list Call := r.1.2.

(** [l[i]] and [l[lo:]] on a slice taken as a value. *)
Definition at_index {A} (l : list A) (i : nat) : Outcome A :=
  match l !! i with
  | Some x => Returned x
  | None => Panicked IndexOutOfRange
  end.

Definition from_index {A} (l : list A) (lo : nat) : Outcome (list A) :=
  if decide (lo ≤ length l) then Returned (drop lo l)
  else Panicked SliceBoundsOutOfRange.

(** *** Reading a trace *)

(** The events posted, with their topics, in order. *)
Definition posted (tr : list Call) : list (string * ContainerExitEvent) :=
  omap (λ c, match c with Post topic v => Some (topic, v) | _ => None end) tr.

(** The exit events posted for process [pid] of container [cid]. *)
Definition exits_of (cid pid : string) (tr : list Call) : list ContainerExitEvent :=
  filter (λ v, ID (Event v) = cid ∧ PID v = pid) (snd <$> posted tr).

(** The goroutines started, in order. *)
Definition started (tr : list Call) : list (Container * Process) :=
  omap (λ c, match c with Go c p => Some (c, p) | _ => None end) tr.

(** The options of the executor's [StartProcess] calls, in order. *)
Definition start_opts (tr : list Call) : list StartProcessOpts :=
  omap (λ c, match c with ExecutorStartProcess _ o => Some o | _ => None end) tr.

(** *** Declarations of the package and of its libraries that are not in
    this file *)

Class Declarations : Type := mkDeclarations
  { (** the reserved status code of a wait that failed *)
    UnknownStatusCode : Z;
    (** the [Status] constants [New] compares with *)
    Stopped : Status;
    Deleted : Status;
    (** the topic formats *)
    containerEventsTopicFormat : string;
    containerProcessEventsTopicFormat : string;
    (** [fmt.Sprintf] *)
    Sprintf : string → list string → string;
    (** [time.Now()]: the value of the n-th reading of the clock *)
    clock : nat → Z;
    (** the constants of the [api.Status] enumeration *)
    Status_CREATED : api_Status;
    Status_RUNNING : api_Status;
    Status_STOPPED : api_Status;
    Status_PAUSED : api_Status }.

Section Service.

Context `{Declarations}.

Definition time_Now : M Z := λ t, (Returned (clock t), [], S t).

Definition GetContainerEventTopic (id : string) : string :=
  Sprintf containerEventsTopicFormat [id].

Definition GetContainerProcessEventTopic (containerID processID : string) : string :=
  Sprintf containerProcessEventsTopicFormat [containerID; processID].

(** [c.Status = st] *)
Definition set_Status (c : api_Container) (st : api_Status) : api_Container :=
  {| api_Container_ID := api_Container_ID c;
     api_Container_BundlePath := api_Container_BundlePath c;
     api_Container_Status := st |}.

Definition toGRPCContainer (container : Container) : api_Container :=
  let c := {| api_Container_ID := Container_ID container;
              api_Container_BundlePath := Container_Bundle container;
              api_Container_Status := 0%Z |} in
  let status := Container_Status container in
  if String.eqb status "created" then set_Status c Status_CREATED
  else if String.eqb status "running" then set_Status c Status_RUNNING
  else if String.eqb status "stopped" then set_Status c Status_STOPPED
  else if String.eqb status "paused" then set_Status c Status_PAUSED
  else c.

Definition toGRPCProcess (process : Process) : api_Process :=
  {| api_Process_ID := Process_ID process;
     api_Process_Pid := Process_Pid process;
     api_Process_Args := [];
     api_Process_Env := [];
     api_Process_Cwd := "";
     api_Process_Terminal := false |}.

Definition toGRPCProcesses (processes : list Process) : list api_Process :=
  map toGRPCProcess processes.

(** [events.GetPoster(ctx).Post(ctx, v)] under the topic [topic]. *)
Definition publishEvent (s : Service) (topic : string) (v : ContainerExitEvent) : M unit :=
  call (Post topic v).

Definition Wait (p : Process) : M (Z + error) :=
  call (ProcessWait p) ;; mret (Process_Wait p).

Definition Signal (p : Process) (sig : Z) : M (option error) :=
  call (ProcessSignal p sig) ;; mret (Process_Signal p sig).

(** The body of the goroutine that [monitorProcess] starts. *)
Definition monitor (s : Service) (container : Container) (process : Process) : M unit :=
  w ← Wait process;
  match w with
  | inl status =>
      let topic := GetContainerProcessEventTopic (Container_ID container) (Process_ID process) in
      now ← time_Now;
      publishEvent s topic
        {| Event := {| Timestamp := now;
                       ID := Container_ID container;
                       Action := "exit" |};
           PID := Process_ID process;
           StatusCode := status |}
  | inr _ => mret ()
  end.

(** [go func() { ... }()]: the goroutine is handed to the scheduler. *)
Definition monitorProcess (s : Service) (container : Container) (process : Process) : M unit :=
  call (Go container process).

(** *** Service construction and boot recovery

    [New] builds the reordered slice [processes] and then ranges over the
    field [c.processes].  Building it changes no element of a slice that
    exists already: [append] stores the init process one past the last
    element of [processes[1:]], which is one past the last element of the
    slice [Processes()] returned, or in a fresh array when no capacity is
    left. *)

(** The body of the inner loop of [New]; [status] there is
    [Container_Status c]. *)
Definition recover_process (svc : Service) (c : Container) (p : Process) : M unit :=
  if String.eqb (Container_Status c) Stopped || String.eqb (Container_Status c) Deleted then
    (if negb (String.eqb (Process_Status p) Stopped)
     then Signal p os_Kill ;; mret ()
     else mret ()) ;;
    w ← Wait p;
    let sc := match w with
              | inl sc => sc
              | inr _ => UnknownStatusCode
              end in
    let topic := GetContainerProcessEventTopic (Container_ID c) (Process_ID p) in
    now ← time_Now;
    publishEvent svc topic
      {| Event := {| Timestamp := now;
                     ID := Container_ID c;
                     Action := "exit" |};
         PID := Process_ID p;
         StatusCode := sc |}
  else monitorProcess svc c p.

(** The body of the outer loop of [New]. *)
Definition recover_container (svc : Service) (c : Container) : M unit :=
  let processes := Container_Processes c in
  tail ← lift (from_index processes 1);
  init ← lift (at_index processes 0);
  let processes := tail ++ [init] in
  range (Container_processes c) (recover_process svc c).

Definition New (executor : Executor) : M (option Service * option error) :=
  let svc := {| executor := executor |} in
  call ExecutorList ;;
  match exec_List executor with
  | inr err => mret (None, Some err)
  | inl containers =>
      range containers (recover_container svc) ;;
      mret (Some svc, None)
  end.

(** *** The operations of the service

    A request that carries nothing but a container ID is passed as that
    ID.  A result [(resp, err)] pairs the response pointer ([None] when
    nil) with the error ([None] when nil). *)

Definition Create (s : Service) (r : CreateContainerRequest)
  : M (option CreateContainerResponse * option error) :=
  let opts := {| CreateOpts_Bundle := Create_BundlePath r;
                 CreateOpts_Console := Create_Console r;
                 CreateOpts_Stdin := Create_Stdin r;
                 CreateOpts_Stdout := Create_Stdout r;
                 CreateOpts_Stderr := Create_Stderr r |} in
  call (ExecutorCreate (Create_ID r) opts) ;;
  match exec_Create (executor s) (Create_ID r) opts with
  | inr err => mret (None, Some err)
  | inl container =>
      let procs := Container_Processes container in
      initProcess ← lift (at_index procs 0);
      monitorProcess s container initProcess ;;
      mret (Some {| Create_Container := toGRPCContainer container;
                    Create_InitProcess := toGRPCProcess initProcess |}, None)
  end.

Definition Delete (s : Service) (id : string) : M (option Empty * option error) :=
  call (ExecutorLoad id) ;;
  match exec_Load (executor s) id with
  | inr err => mret (emptyResponse, Some err)
  | inl container =>
      call (ExecutorDelete container) ;;
      match exec_Delete (executor s) container with
      | Some err => mret (emptyResponse, Some err)
      | None => mret (emptyResponse, None)
      end
  end.

Definition List (s : Service) : M (option ListContainersResponse * option error) :=
  call ExecutorList ;;
  match exec_List (executor s) with
  | inr err => mret (None, Some err)
  | inl containers =>
      mret (Some {| List_Containers := map toGRPCContainer containers |}, None)
  end.

Definition Get (s : Service) (id : string) : M (option GetContainerResponse * option error) :=
  call (ExecutorLoad id) ;;
  match exec_Load (executor s) id with
  | inr err => mret (None, Some err)
  | inl container =>
      mret (Some {| Get_Container := toGRPCContainer container |}, None)
  end.

Definition Update (s : Service) (id : string) : M (option Empty * option error) :=
  mret (emptyResponse, None).

Definition Pause (s : Service) (id : string) : M (option Empty * option error) :=
  call (ExecutorLoad id) ;;
  match exec_Load (executor s) id with
  | inr err => mret (None, Some err)
  | inl container =>
      call (ExecutorPause container) ;;
      mret (emptyResponse, exec_Pause (executor s) container)
  end.

Definition Resume (s : Service) (id : string) : M (option Empty * option error) :=
  call (ExecutorLoad id) ;;
  match exec_Load (executor s) id with
  | inr err => mret (None, Some err)
  | inl container =>
      call (ExecutorResume container) ;;
      mret (emptyResponse, exec_Resume (executor s) container)
  end.

Definition Start (s : Service) (id : string) : M (option Empty * option error) :=
  call (ExecutorLoad id) ;;
  match exec_Load (executor s) id with
  | inr err => mret (None, Some err)
  | inl container =>
      call (ExecutorStart container) ;;
      mret (emptyResponse, exec_Start (executor s) container)
  end.

Definition StartProcess (s : Service) (r : StartProcessRequest)
  : M (option StartProcessResponse * option error) :=
  call (ExecutorLoad (StartProcess_ContainerID r)) ;;
  match exec_Load (executor s) (StartProcess_ContainerID r) with
  | inr err => mret (None, Some err)
  | inl container =>
      let spec := {| Terminal := api_Process_Terminal (StartProcess_Process r);
                     ConsoleSize := {| Height := 80; Width := 80 |};
                     Args := api_Process_Args (StartProcess_Process r);
                     Env := api_Process_Env (StartProcess_Process r);
                     Cwd := api_Process_Cwd (StartProcess_Process r);
                     NoNewPrivileges := true |} in
      let opts := {| StartProcessOpts_ID := api_Process_ID (StartProcess_Process r);
                     StartProcessOpts_Spec := spec;
                     StartProcessOpts_Console := StartProcess_Console r;
                     StartProcessOpts_Stdin := StartProcess_Stdin r;
                     StartProcessOpts_Stdout := StartProcess_Stdout r;
                     StartProcessOpts_Stderr := StartProcess_Stderr r |} in
      call (ExecutorStartProcess container opts) ;;
      match exec_StartProcess (executor s) container opts with
      | inr err => mret (None, Some err)
      | inl process =>
          monitorProcess s container process ;;
          mret (Some {| StartProcess_Response_Process := toGRPCProcess process |}, None)
      end
  end.

Definition GetProcess (s : Service) (r : ProcessRequest)
  : M (option GetProcessResponse * option error) :=
  call (ExecutorLoad (Req_ContainerID r)) ;;
  match exec_Load (executor s) (Req_ContainerID r) with
  | inr err => mret (None, Some err)
  | inl container =>
      match Container_GetProcess container (Req_ProcessID r) with
      | None => mret (None, Some ErrProcessNotFound)
      | Some process =>
          mret (Some {| GetProcess_Process := toGRPCProcess process |}, None)
      end
  end.

Definition SignalProcess (s : Service) (r : SignalProcessRequest)
  : M (option Empty * option error) :=
  call (ExecutorLoad (Signal_ContainerID r)) ;;
  match exec_Load (executor s) (Signal_ContainerID r) with
  | inr err => mret (emptyResponse, Some err)
  | inl container =>
      match Container_GetProcess container (Signal_ProcessID r) with
      | None => mret (None, Some (Errorf "Make me a constant! Process not foumd!"))
      | Some process =>
          err ← Signal process (Signal_Signal r);
          mret (emptyResponse, err)
      end
  end.

Definition DeleteProcess (s : Service) (r : ProcessRequest)
  : M (option Empty * option error) :=
  call (ExecutorLoad (Req_ContainerID r)) ;;
  match exec_Load (executor s) (Req_ContainerID r) with
  | inr err => mret (emptyResponse, Some err)
  | inl container =>
      call (ExecutorDeleteProcess container (Req_ProcessID r)) ;;
      match exec_DeleteProcess (executor s) container (Req_ProcessID r) with
      | Some err => mret (emptyResponse, Some err)
      | None => mret (emptyResponse, None)
      end
  end.

Definition ListProcesses (s : Service) (id : string)
  : M (option ListProcessesResponse * option error) :=
  call (ExecutorLoad id) ;;
  match exec_Load (executor s) id with
  | inr err => mret (None, Some err)
  | inl container =>
      let processes := Container_Processes container in
      mret (Some {| ListProcesses_Processes := toGRPCProcesses processes |}, None)
  end.

(** *** Vocabulary of the properties *)

(** What an observer keeps of a posted event: container, process, code. *)
Definition summary (e : string * ContainerExitEvent) : string * string * Z :=
  (ID (Event e.2), PID e.2, StatusCode e.2).

(** The containers whose processes [New] reaps rather than monitors. *)
Definition reaped (c : Container) : bool :=
  String.eqb (Container_Status c) Stopped || String.eqb (Container_Status c) Deleted.

(** The status code [New] reports for a reaped process. *)
Definition exit_code (p : Process) : Z :=
  match Process_Wait p with
  | inl sc => sc
  | inr _ => UnknownStatusCode
  end.

(** The events and the monitors a listing gives rise to. *)
Definition recovery_events (cs : list Container) : list (string * string * Z) :=
  flat_map (λ c, if reaped c
                 then (λ p, (Container_ID c, Process_ID p, exit_code p))
                        <$> Container_processes c
                 else []) cs.

Definition recovery_monitors (cs : list Container) : list (Container * Process) :=
  flat_map (λ c, if reaped c then []
                 else (λ p, (c, p)) <$> Container_processes c) cs.

(** The options [Create] hands to the executor. *)
Definition create_opts (r : CreateContainerRequest) : CreateOpts :=
  {| CreateOpts_Bundle := Create_BundlePath r;
     CreateOpts_Console := Create_Console r;
     CreateOpts_Stdin := Create_Stdin r;
     CreateOpts_Stdout := Create_Stdout r;
     CreateOpts_Stderr := Create_Stderr r |}.

End Service.

(** *** A concrete service, for the scenarios *)

(** [fmt.Sprintf] restricted to the verb [%s]. *)
Fixpoint Sprintf_s (format : string) (args : list string) : string :=
  match format with
  | EmptyString => EmptyString
  | String "%"%char (String "s"%char rest) =>
      match args with
      | a :: args' => a +:+ Sprintf_s rest args'
      | [] => "%!s(MISSING)" +:+ Sprintf_s rest []
      end
  | String ch rest => String ch (Sprintf_s rest args)
  end.

(** Values for the declarations, as the scenarios use them; the
    properties stated for every [Declarations] do not depend on them. *)
Definition decls : Declarations :=
  {| UnknownStatusCode := 255;
     Stopped := "stopped";
     Deleted := "deleted";
     containerEventsTopicFormat := "containers.%s";
     containerProcessEventsTopicFormat := "containers.%s.processes.%s";
     Sprintf := Sprintf_s;
     clock := Z.of_nat;
     Status_CREATED := 0%Z;
     Status_RUNNING := 1%Z;
     Status_STOPPED := 2%Z;
     Status_PAUSED := 3%Z |}.

(** A process by its ID, status and the answer of its [Wait]. *)
Definition process (id : string) (status : Status) (wait : Z + error) : Process :=
  {| Process_ID := id;
     Process_Pid := 1;
     Process_Status := status;
     Process_Signal := λ _, None;
     Process_Wait := wait |}.

(** A container that stores the sequence it reports. *)
Definition container (id : string) (status : Status) (ps : list Process) : Container :=
  {| Container_ID := id;
     Container_Bundle := "/bundles/" +:+ id;
     Container_Status := status;
     Container_processes := ps;
     Container_Processes := ps;
     Container_GetProcess := λ pid,
       List.find (λ p, String.eqb (Process_ID p) pid) ps |}.

(** An executor that knows the containers [cs] and refuses everything
    else with an error of its own. *)
Definition executor_of (cs : list Container) : Executor :=
  {| exec_List := inl cs;
     exec_Load := λ id,
       match List.find (λ c, String.eqb (Container_ID c) id) cs with
       | Some c => inl c
       | None => inr (Foreign 1)
       end;
     exec_Create := λ _ _, inr (Foreign 2);
     exec_Delete := λ _, None;
     exec_Pause := λ _, None;
     exec_Resume := λ _, None;
     exec_Start := λ _, None;
     exec_StartProcess := λ _ _, inr (Foreign 3);
     exec_DeleteProcess := λ _ _, Some (Foreign 4) |}.

(** The restart scenario: container [c2] is Stopped, its init process has
    stopped and its process [p3] still counts as running. *)
Definition c2 : Container :=
  container "c2" "stopped"
    [process "init" "stopped" (inl 0%Z); process "p3" "running" (inl 137%Z)].

(** Container [c1] while it runs, and after its init process exited. *)
Definition c1_running : Container :=
  container "c1" "running" [process "init" "running" (inl 0%Z)].

Definition c1_stopped : Container :=
  container "c1" "stopped" [process "init" "stopped" (inl 0%Z)].

(** A container for which the executor reports no process at all. *)
Definition c0 : Container := container "c0" "created" [].

(** A Deleted container whose processes cannot be waited for. *)
Definition c3 : Container :=
  container "c3" "deleted"
    [process "init" "stopped" (inr (Foreign 7)); process "p4" "running" (inr (Foreign 8))].

(** An executor whose [Create] answers with the container [c]. *)
Definition executor_creating (c : Container) : Executor :=
  {| exec_List := inl [];
     exec_Load := λ _, inr (Foreign 1);
     exec_Create := λ _ _, inl c;
     exec_Delete := λ _, None;
     exec_Pause := λ _, None;
     exec_Resume := λ _, None;
     exec_Start := λ _, None;
     exec_StartProcess := λ _ _, inr (Foreign 3);
     exec_DeleteProcess := λ _ _, None |}.

(** *** More ways to read a trace *)

(** The signals delivered, with the processes they went to, in order. *)
Definition signalled (tr : list Call) : list (Process * Z) :=
  omap (λ c, match c with ProcessSignal p sig => Some (p, sig) | _ => None end) tr.

(** The processes waited for, in order. *)
Definition waited (tr : list Call) : list Process :=
  omap (λ c, match c with ProcessWait p => Some p | _ => None end) tr.

(** The calls to the executor, in order. *)
Definition executor_calls (tr : list Call) : list Call :=
  omap (λ c, match c with
             | ProcessSignal _ _ | ProcessWait _ | Post _ _ | Go _ _ => None
             | _ => Some c
             end) tr.

(** The time stamps of the events posted, in order. *)
Definition stamps (tr : list Call) : list Z :=
  (λ e, Timestamp (Event e.2)) <$> posted tr.

(** The options [StartProcess] hands to the executor. *)
Definition start_process_opts (r : StartProcessRequest) : StartProcessOpts :=
  {| StartProcessOpts_ID := api_Process_ID (StartProcess_Process r);
     StartProcessOpts_Spec :=
       {| Terminal := api_Process_Terminal (StartProcess_Process r);
          ConsoleSize := {| Height := 80; Width := 80 |};
          Args := api_Process_Args (StartProcess_Process r);
          Env := api_Process_Env (StartProcess_Process r);
          Cwd := api_Process_Cwd (StartProcess_Process r);
          NoNewPrivileges := true |};
     StartProcessOpts_Console := StartProcess_Console r;
     StartProcessOpts_Stdin := StartProcess_Stdin r;
     StartProcessOpts_Stdout := StartProcess_Stdout r;
     StartProcessOpts_Stderr := StartProcess_Stderr r |}.

(** An event posted under the topic of its own container and process,
    with the action "exit". *)
Definition well_formed `{Declarations} (e : string * ContainerExitEvent) : Prop :=
  e.1 = GetContainerProcessEventTopic (ID (Event e.2)) (PID e.2) ∧
  Action (Event e.2) = "exit".

(** The processes of a listing that recovery kills: those of Stopped or
    Deleted containers that have not stopped yet. *)
Definition recovery_kills `{Declarations} (cs : list Container) : list (Process * Z) :=
  flat_map (λ c, if reaped c
                 then (λ p, (p, os_Kill))
                        <$> List.filter (λ p, negb (String.eqb (Process_Status p) Stopped))
                              (Container_processes c)
                 else []) cs.

(** The processes of a listing that recovery waits for. *)
Definition recovery_waits `{Declarations} (cs : list Container) : list Process :=
  flat_map (λ c, if reaped c then Container_processes c else []) cs.

(** A property of what a computation did between two readings of the
    clock holds of the computation [m] whenever it is started. *)
Definition keeps {A} (R : nat → list Call → nat → Prop) (m : M A) : Prop :=
  ∀ t, R t (m t).1.2 (m t).2.

(** Such a property holds of two runs in a row when it holds of each. *)
Definition sequential (R : nat → list Call → nat → Prop) : Prop :=
  (∀ t, R t [] t) ∧
  (∀ t tr1 t1 tr2 t2, R t tr1 t1 → R t1 tr2 t2 → R t (tr1 ++ tr2) t2).

(** The tick count a computation ends with. *)
Definition ticks {A} (r : Outcome A * list Call * nat) : nat := r.2.

(** A container with one running process, and an executor that knows it
    and starts the process [p] in it. *)
Definition c4 : Container :=
  container "c4" "running" [process "init" "running" (inl 0%Z)].

Definition executor_starting (p : Process) : Executor :=
  {| exec_List := inl [c4];
     exec_Load := λ id, if String.eqb id "c4" then inl c4 else inr (Foreign 1);
     exec_Create := λ _ _, inr (Foreign 2);
     exec_Delete := λ _, Some (Foreign 5);
     exec_Pause := λ _, Some (Foreign 6);
     exec_Resume := λ _, None;
     exec_Start := λ _, None;
     exec_StartProcess := λ _ _, inl p;
     exec_DeleteProcess := λ _ _, None |}.

(** *** One service lifetime *)

(** The processes a listing names, by container ID and process ID, in
    the order in which [New] meets them. *)
Definition listing (cs : list Container) : list (string * string) :=
  flat_map (λ c, (λ p, (Container_ID c, Process_ID p)) <$> Container_processes c) cs.

(** The monitors [ms] run, each to its end or not at all: monitor i runs
    from clock reading [t] when [ts] holds [Some t] at position i, and has
    not returned from its wait otherwise. *)
Fixpoint run_monitors `{Declarations} (svc : Service)
    (ms : list (Container * Process)) (ts : list (option nat)) : list Call :=
  match ms, ts with
  | (c, p) :: ms', Some t :: ts' =>
      calls (monitor svc c p t) ++ run_monitors svc ms' ts'
  | _ :: ms', None :: ts' => run_monitors svc ms' ts'
  | _, _ => []
  end.

(** What a service does from its boot on, as long as no request comes
    in: recovery, and the monitors that recovery started. *)
Definition lifetime `{Declarations} (ex : Executor) (ts : list (option nat))
    (t : nat) : list Call :=
  calls (New ex t)
  ++ run_monitors {| executor := ex |} (started (calls (New ex t))) ts.

End execution.

(** * Properties *)

(** ** Chain identifiers *)

Module rootfs_facts.

Import rootfs.

Lemma valid_shape h h' s : same_shape h h' → valid h s → valid h' s.
Proof.
  intros Hs (a & Ha & Hl & Hc).
  assert ((length <$> h') !! arr s = Some (length a)) as Hn.
  { rewrite Hs, list_lookup_fmap, Ha. done. }
  rewrite list_lookup_fmap in Hn.
  destruct (h' !! arr s) as [a'|] eqn:Ha'; simplify_eq/=.
  exists a'. split_and!; [done | done | lia].
Qed.

Lemma index_valid h s i :
  valid h s → i < len s →
  ∃ d, index s i h = Returned d ∧ cell h (arr s) (off s + i) = Some d.
Proof.
  intros (a & Ha & Hl & Hc) Hi. unfold index, cell.
  rewrite decide_True; [|done]. rewrite Ha; simpl.
  destruct (lookup_lt_is_Some_2 a (off s + i)) as [d Hd]; [lia|].
  rewrite Hd. eauto.
Qed.

Lemma assign_valid h s i d :
  valid h s → i < len s →
  ∃ h', assign s i d h = Returned h' ∧ same_shape h h' ∧
        ∀ a j, ¬ (a = arr s ∧ j = off s + i) → cell h' a j = cell h a j.
Proof.
  intros (a & Ha & Hl & Hc) Hi. unfold assign.
  rewrite decide_True; [|done]. rewrite Ha.
  eexists. split; [done|]. split.
  - unfold same_shape. rewrite list_fmap_insert, length_insert.
    apply list_insert_id. by rewrite list_lookup_fmap, Ha.
  - intros b j Hne. unfold cell.
    destruct (decide (b = arr s)) as [->|Hb].
    + rewrite list_lookup_insert_eq; [|by eapply lookup_lt_Some].
      rewrite Ha; simpl. apply list_lookup_insert_ne. naive_solver.
    + by rewrite list_lookup_insert_ne.
Qed.

Lemma slice_from_valid h s lo :
  valid h s → lo ≤ len s →
  ∃ s', slice_from s lo = Returned s' ∧ valid h s' ∧
        arr s' = arr s ∧ off s' = off s + lo ∧ len s' = len s - lo.
Proof.
  intros (a & Ha & Hl & Hc) Hlo. unfold slice_from.
  rewrite decide_True; [|done]. eexists. split; [done|].
  split; [|done]. exists a. simpl. split_and!; [done | lia | lia].
Qed.

Section ChainID.

Variable FromBytes : string → Digest.

(** [ChainIDs] runs to completion on a valid slice, keeps every array's
    size, and writes nowhere but in the cells of the slice after its
    first. *)
Lemma ChainIDs_len_writes n : ∀ s h,
  n = len s → valid h s →
  ∃ h', ChainIDs_len FromBytes n s h = Returned h' ∧ same_shape h h' ∧
        ∀ a j, ¬ (a = arr s ∧ off s < j < off s + len s) →
               cell h' a j = cell h a j.
Proof.
  induction n as [n IH] using lt_wf_ind. intros s h Hn Hv.
  destruct n as [|[|k]].
  - exists h. by split_and!.
  - exists h. by split_and!.
  - destruct (index_valid h s 0 Hv) as (d0 & Hd0 & _); [lia|].
    destruct (index_valid h s 1 Hv) as (d1 & Hd1 & _); [lia|].
    destruct (slice_from_valid h s 1 Hv) as (next & Hnext & Hvn & Ha & Ho & Hl); [lia|].
    destruct (assign_valid h next 0 (FromBytes (d0 +:+ " " +:+ d1)) Hvn)
      as (h1 & Hh1 & Hs1 & Hc1); [lia|].
    destruct (IH (S k) ltac:(lia) next h1) as (h2 & Hh2 & Hs2 & Hc2);
      [lia | by eapply valid_shape |].
    exists h2. split_and!.
    + cbn [ChainIDs_len]. rewrite Hd0; simpl. rewrite Hd1; simpl.
      rewrite Hnext; simpl. rewrite Hh1; simpl. exact Hh2.
    + unfold same_shape in *. congruence.
    + intros a j Hne. rewrite Hc2; [apply Hc1|]; intros [-> ?]; apply Hne; lia.
Qed.

Lemma ChainIDs_returns s h :
  valid h s →
  ∃ h', ChainIDs FromBytes s h = Returned (s, h') ∧ same_shape h h' ∧
        ∀ a j, ¬ (a = arr s ∧ off s < j < off s + len s) →
               cell h' a j = cell h a j.
Proof.
  intros Hv.
  destruct (ChainIDs_len_writes (len s) s h eq_refl Hv) as (h' & Hr & Hs & Hc).
  exists h'. unfold ChainIDs. rewrite Hr. done.
Qed.

End ChainID.

Lemma cell_ext h h' a :
  same_shape h h' → (∀ j, cell h' a j = cell h a j) → h' !! a = h !! a.
Proof.
  intros Hs Hc.
  assert (length <$> (h' !! a) = length <$> (h !! a)) as Hl.
  { rewrite <- !list_lookup_fmap. by rewrite Hs. }
  unfold cell in Hc.
  destruct (h' !! a) as [l'|], (h !! a) as [l|]; simplify_eq/=; [|done].
  f_equal. apply list_eq. exact Hc.
Qed.

Lemma length_write_at ds : ∀ o a, length (write_at o ds a) = length a.
Proof.
  induction ds as [|d ds IH]; intros o a; simpl; [done|].
  by rewrite IH, length_insert.
Qed.

Lemma copy_fresh h n src :
  let dst := (make n h).1 in
  let h1 := (make n h).2 in
  same_shape h1 (copy dst src h1) ∧
  ∀ a, a < length h → copy dst src h1 !! a = h !! a.
Proof.
  simpl. unfold copy. simpl.
  rewrite lookup_app_r, Nat.sub_diag by lia. simpl. split.
  - unfold same_shape. rewrite list_fmap_insert, length_write_at.
    apply list_insert_id. rewrite list_lookup_fmap, lookup_app_r, Nat.sub_diag by lia.
    done.
  - intros a Ha. rewrite list_lookup_insert_ne by lia. by apply lookup_app_l.
Qed.

Lemma make_valid h n : valid (make n h).2 (make n h).1.
Proof.
  exists (replicate n ""). simpl.
  rewrite lookup_app_r, Nat.sub_diag, length_replicate by lia. done.
Qed.

(** The documented example: for the chain [[A; B; C]] the slice holds
    [[A; ChainID(A|B); ChainID(A|B|C)]] afterwards, here with a digest
    function that only brackets its input. *)
Example ChainIDs_ABC :
  ChainIDs (λ b, "<" +:+ b +:+ ">") (mkSlice 0 0 3 3) [["A"; "B"; "C"]]
  = Returned (mkSlice 0 0 3 3, [["A"; "<A B>"; "<<A B> C>"]]).
Proof. reflexivity. Qed.

Example ChainID_ABC :
  ChainID (λ b, "<" +:+ b +:+ ">") (mkSlice 0 0 3 3) [["A"; "B"; "C"]]
  = Returned ("<<A B> C>", [["A"; "B"; "C"]; ["A"; "<A B>"; "<<A B> C>"]]).
Proof. reflexivity. Qed.

(** C10. [ChainID] works on a copy: on a valid slice it returns, every
    array that existed before the call, the input's among them, is
    unchanged afterwards, and the result is the empty digest when the
    input is empty.  [ChainIDs] rewrites its input in place: it returns its
    argument, the cell of element 0 is unchanged, and an input shorter than
    two elements leaves the whole heap unchanged. *)
Theorem ChainID_copies_ChainIDs_keeps_first
    (FromBytes : string → Digest) (h : Heap) (s : Slice) :
  valid h s →
  (∃ d h', ChainID FromBytes s h = Returned (d, h') ∧
           (∀ a, a < length h → h' !! a = h !! a) ∧
           elements s h' = elements s h ∧
           (len s = 0 → d = "")) ∧
  (∃ h', ChainIDs FromBytes s h = Returned (s, h') ∧
         cell h' (arr s) (off s) = cell h (arr s) (off s) ∧
         (len s < 2 → h' = h)).
Proof.
  intros Hv. split.
  - pose proof (make_valid h (len s)) as Hv1.
    destruct (copy_fresh h (len s) s) as [Hs2 Hold2].
    simpl in Hv1, Hs2, Hold2.
    set (chainIDs := {| arr := length h; off := 0; len := len s; cap := len s |}) in *.
    set (h2 := copy chainIDs s (h ++ [replicate (len s) ""])) in *.
    assert (valid h2 chainIDs) as Hv2 by (by eapply valid_shape).
    destruct (ChainIDs_returns FromBytes chainIDs h2 Hv2) as (h3 & Hr & Hs3 & Hc3).
    assert (∀ a, a < length h → h3 !! a = h !! a) as Hold3.
    { intros a Ha. rewrite <- Hold2 by done. apply cell_ext; [done|].
      intros j. apply Hc3. intros [-> _]. simpl in Ha. lia. }
    assert (elements s h3 = elements s h) as Hel.
    { unfold elements. rewrite Hold3; [done|].
      destruct Hv as (a & Ha & _). by eapply lookup_lt_Some. }
    assert (ChainID FromBytes s h =
            if decide (len s = 0) then Returned ("", h3)
            else d ← index chainIDs (len s - 1) h3; Returned (d, h3)) as Heq.
    { unfold ChainID. simpl. fold chainIDs. fold h2. rewrite Hr. done. }
    destruct (decide (len s = 0)) as [H0|H0].
    + exists "", h3. by split_and!.
    + assert (valid h3 chainIDs) as Hv3 by (by eapply valid_shape).
      destruct (index_valid h3 chainIDs (len s - 1) Hv3) as (d & Hd & _);
        [simpl; lia|].
      exists d, h3. rewrite Heq, Hd. by split_and!.
  - destruct (ChainIDs_returns FromBytes s h Hv) as (h' & Hr & Hs & Hc).
    exists h'. split_and!; [done | apply Hc; lia |].
    intros Hlen. unfold ChainIDs in Hr.
    destruct (len s) as [|[|k]]; [| |lia]; inversion Hr; done.
Qed.

Lemma ChainID_copies_ChainIDs_keeps_first_witness :
  valid [["A"; "B"; "C"]] (mkSlice 0 1 2 2) ∧
  ∃ h', ChainIDs (λ b, "<" +:+ b +:+ ">") (mkSlice 0 1 2 2) [["A"; "B"; "C"]]
        = Returned (mkSlice 0 1 2 2, h') ∧
        cell h' 0 1 = Some "B".
Proof.
  assert (valid [["A"; "B"; "C"]] (mkSlice 0 1 2 2)) as Hv.
  { exists ["A"; "B"; "C"]. simpl. split_and!; [reflexivity | lia | lia]. }
  split; [exact Hv|].
  destruct (ChainID_copies_ChainIDs_keeps_first
              (λ b, "<" +:+ b +:+ ">") [["A"; "B"; "C"]] (mkSlice 0 1 2 2) Hv)
    as [_ (h' & Hr & Hc & _)].
  exists h'. split; [exact Hr | exact Hc].
Defined.

(** *** What [ChainIDs] computes *)

Section Chain.

Variable FromBytes : string → Digest.

Lemma length_chain_from l : ∀ p, length (chain_from FromBytes p l) = length l.
Proof. induction l as [|d l IH]; intros p; simpl; [done | by rewrite IH]. Qed.

Lemma length_chain l : length (chain FromBytes l) = length l.
Proof. destruct l; simpl; [done | by rewrite length_chain_from]. Qed.

(** The array of a slice split into what precedes the window, the window
    and what follows it. *)
Lemma valid_split h s :
  valid h s →
  ∃ pre post, h !! arr s = Some (pre ++ elements s h ++ post) ∧
              length pre = off s ∧ length (elements s h) = len s.
Proof.
  intros (a & Ha & Hl & Hc). unfold elements. rewrite Ha.
  exists (take (off s) a), (drop (len s) (drop (off s) a)).
  rewrite !take_drop. split_and!; [done | |].
  - rewrite length_take. lia.
  - rewrite length_take, length_drop. lia.
Qed.

Lemma Returned_bind {A B} (a : A) (k : A → Outcome B) : Returned a ≫= k = k a.
Proof. reflexivity. Qed.

Lemma ChainIDs_len_step n s h :
  ChainIDs_len FromBytes (S (S n)) s h =
  (d0 ← index s 0 h;
   d1 ← index s 1 h;
   next ← slice_from s 1;
   h' ← assign next 0 (FromBytes (d0 +:+ " " +:+ d1)) h;
   ChainIDs_len FromBytes (S n) next h').
Proof. reflexivity. Qed.

(** [ChainIDs] on a window that holds [l] leaves the chain of [l] in the
    window and changes nothing else. *)
Lemma ChainIDs_len_chain n : ∀ l pre post s h,
  length l = n → len s = n → length pre = off s →
  h !! arr s = Some (pre ++ l ++ post) →
  ChainIDs_len FromBytes n s h
  = Returned (<[arr s := pre ++ chain FromBytes l ++ post]> h).
Proof.
  induction n as [n IH] using lt_wf_ind. intros l pre post s h Hl Hn Hpre Hh.
  destruct l as [|d0 [|d1 rest]]; simpl in Hl; subst n.
  - simpl. f_equal. symmetry. by apply list_insert_id.
  - simpl. f_equal. symmetry. by apply list_insert_id.
  - set (next := {| arr := arr s; off := off s + 1;
                    len := len s - 1; cap := cap s - 1 |}).
    set (parent := FromBytes (d0 +:+ " " +:+ d1)).
    assert (index s 0 h = Returned d0) as H0.
    { unfold index. rewrite decide_True by lia. rewrite Hh. simpl.
      rewrite list_lookup_middle by lia. done. }
    assert (index s 1 h = Returned d1) as H1.
    { unfold index. rewrite decide_True by lia. rewrite Hh. simpl.
      rewrite (cons_middle d0), app_assoc.
      rewrite list_lookup_middle by (rewrite length_app; simpl; lia). done. }
    assert (slice_from s 1 = Returned next) as H2.
    { unfold slice_from. rewrite decide_True by lia. done. }
    assert (assign next 0 parent h
            = Returned (<[arr s := (pre ++ [d0]) ++ (parent :: rest) ++ post]> h)) as H3.
    { unfold assign. rewrite decide_True by (simpl; lia). simpl. rewrite Hh.
      do 2 f_equal.
      rewrite insert_app_r_alt by lia.
      replace (off s + 1 + 0 - length pre) with 1 by lia.
      simpl. by rewrite <- app_assoc. }
    rewrite ChainIDs_len_step, H0, Returned_bind, H1, Returned_bind.
    rewrite H2, Returned_bind. fold parent. rewrite H3, Returned_bind.
    rewrite (IH (S (length rest)) ltac:(lia) (parent :: rest) (pre ++ [d0]) post next).
    + simpl. rewrite list_insert_insert_eq. f_equal. f_equal.
      by rewrite <- app_assoc.
    + done.
    + simpl. lia.
    + rewrite length_app. simpl. lia.
    + simpl. apply list_lookup_insert_eq. by eapply lookup_lt_Some.
Qed.

(** X1. [ChainIDs] writes the chain of the elements of its slice over
    them: afterwards element 0 is the first digest and element i+1 is the
    digest of element i, a space and the old element i+1. *)
Theorem ChainIDs_writes_the_chain (h : Heap) (s : Slice) :
  valid h s →
  ∃ h', ChainIDs FromBytes s h = Returned (s, h') ∧
        elements s h' = chain FromBytes (elements s h).
Proof.
  intros Hv. destruct (valid_split h s Hv) as (pre & post & Hh & Hpre & Hl).
  eexists. unfold ChainIDs.
  rewrite (ChainIDs_len_chain (len s) (elements s h) pre post s h) by done.
  split; [done|].
  unfold elements at 1. rewrite list_lookup_insert_eq by (by eapply lookup_lt_Some).
  rewrite drop_app_length' by done.
  rewrite take_app_length' by (by rewrite length_chain).
  done.
Qed.

Lemma write_at_spec ds : ∀ o a,
  o + length ds ≤ length a →
  write_at o ds a = take o a ++ ds ++ drop (o + length ds) a.
Proof.
  induction ds as [|d ds IH]; intros o a Hl; simpl in *.
  - by rewrite Nat.add_0_r, take_drop.
  - rewrite IH by (rewrite length_insert; lia).
    rewrite (take_S_r _ _ d) by (apply list_lookup_insert_eq; lia).
    rewrite take_insert_ge by lia.
    rewrite drop_insert_lt by lia.
    replace (o + S (length ds)) with (S o + length ds) by lia.
    by rewrite <- app_assoc.
Qed.

Lemma elements_app h k s : arr s < length h → elements s (h ++ k) = elements s h.
Proof. intros Ha. unfold elements. by rewrite lookup_app_l. Qed.

Lemma insert_last (h : Heap) (x y : list Digest) :
  <[length h := y]> (h ++ [x]) = h ++ [y].
Proof. rewrite insert_app_r_alt by lia. by rewrite Nat.sub_diag. Qed.

(** X2. [ChainID] adds one array to the heap, which holds the chain of
    the elements of the input, and returns the last identifier of that
    chain, or the empty digest when there is none. *)
Theorem ChainID_returns_last_of_chain (h : Heap) (s : Slice) :
  valid h s →
  ChainID FromBytes s h
  = Returned (default "" (list.last (chain FromBytes (elements s h))),
              h ++ [chain FromBytes (elements s h)]).
Proof.
  intros Hv. destruct (valid_split h s Hv) as (pre & post & Hh & Hpre & Hl).
  assert (arr s < length h) as Ha by (by eapply lookup_lt_Some).
  set (l := elements s h) in *.
  set (chainIDs := {| arr := length h; off := 0; len := len s; cap := len s |}).
  assert (copy chainIDs s (h ++ [replicate (len s) ""]) = h ++ [l]) as Hcopy.
  { unfold copy. simpl. rewrite elements_app by done. fold l.
    rewrite take_ge by lia.
    rewrite list_lookup_middle by done.
    rewrite write_at_spec by (rewrite length_replicate; lia).
    rewrite take_0, Hl, drop_replicate, Nat.sub_diag. simpl.
    rewrite app_nil_r. apply insert_last. }
  assert (ChainIDs FromBytes chainIDs (h ++ [l])
          = Returned (chainIDs, h ++ [chain FromBytes l])) as Hchain.
  { unfold ChainIDs.
    rewrite (ChainIDs_len_chain (len chainIDs) l [] [] chainIDs); try done.
    - simpl. by rewrite app_nil_r, insert_last.
    - simpl. by rewrite app_nil_r, list_lookup_middle. }
  unfold ChainID. simpl. fold chainIDs. rewrite Hcopy, Hchain. simpl.
  destruct (decide (len s = 0)) as [H0|H0].
  - destruct l; [done | simpl in Hl; lia].
  - unfold index. rewrite decide_True by (simpl; lia). simpl.
    rewrite list_lookup_middle by done. simpl.
    rewrite last_lookup, length_chain, Hl.
    replace (len s - 1) with (pred (len s)) by lia.
    destruct (lookup_lt_is_Some_2 (chain FromBytes l) (pred (len s))) as [d Hd];
      [rewrite length_chain; lia|].
    by rewrite Hd.
Qed.

Lemma default_last_cons (p n : Digest) (m : list Digest) :
  default p (list.last (n :: m)) = default n (list.last m).
Proof.
  destruct m as [|y m]; [done|]. rewrite last_cons_cons.
  destruct (list.last (y :: m)) eqn:Hlast; [done|].
  by apply last_None in Hlast.
Qed.

Lemma chain_from_snoc l : ∀ p x,
  chain_from FromBytes p (l ++ [x])
  = chain_from FromBytes p l
    ++ [FromBytes (default p (list.last (chain_from FromBytes p l)) +:+ " " +:+ x)].
Proof.
  induction l as [|d l IH]; intros p x; simpl; [done|].
  rewrite IH. do 2 f_equal. by rewrite default_last_cons.
Qed.

Lemma chain_snoc l x :
  l ≠ [] →
  chain FromBytes (l ++ [x])
  = chain FromBytes l
    ++ [FromBytes (default "" (list.last (chain FromBytes l)) +:+ " " +:+ x)].
Proof.
  destruct l as [|d l]; [done|]. intros _. simpl.
  rewrite chain_from_snoc. do 3 f_equal.
  by rewrite (default_last_cons "").
Qed.

Lemma chain_from_take l : ∀ n p,
  take n (chain_from FromBytes p l) = chain_from FromBytes p (take n l).
Proof.
  induction l as [|d l IH]; intros [|n] p; simpl; try done. by rewrite IH.
Qed.

Lemma chain_take l n : take n (chain FromBytes l) = chain FromBytes (take n l).
Proof.
  destruct l as [|d l], n as [|n]; simpl; try done. by rewrite chain_from_take.
Qed.

(** X3. The chain identifier of a single digest is that digest, and the
    chain identifier of a sequence extended by a digest [x] is the digest
    of the chain identifier of the sequence, a space and [x]. *)
Theorem ChainID_recurrence :
  (∀ h s d, valid h s → elements s h = [d] →
     ∃ h', ChainID FromBytes s h = Returned (d, h')) ∧
  (∀ h s h' s' x,
     valid h s → valid h' s' → elements s h ≠ [] →
     elements s' h' = elements s h ++ [x] →
     ∃ d h1 h1',
       ChainID FromBytes s h = Returned (d, h1) ∧
       ChainID FromBytes s' h' = Returned (FromBytes (d +:+ " " +:+ x), h1')).
Proof.
  split.
  - intros h s d Hv He. eexists.
    rewrite ChainID_returns_last_of_chain by done. by rewrite He.
  - intros h s h' s' x Hv Hv' Hne He.
    do 3 eexists. split; [by apply ChainID_returns_last_of_chain|].
    rewrite ChainID_returns_last_of_chain by done.
    rewrite He, chain_snoc by done. by rewrite last_snoc.
Qed.

(** X4. [ChainIDs] keeps the size of every array and changes no element
    of a slice whose window shares no cell with the window of its
    argument, also when both are windows of the same array. *)
Theorem ChainIDs_keeps_disjoint_slices (h : Heap) (s s' : Slice) :
  valid h s → disjoint s s' →
  ∃ h', ChainIDs FromBytes s h = Returned (s, h') ∧
        elements s' h' = elements s' h ∧
        length <$> h' = length <$> h.
Proof.
  intros Hv Hd. destruct (valid_split h s Hv) as (pre & post & Hh & Hpre & Hl).
  eexists. unfold ChainIDs.
  rewrite (ChainIDs_len_chain (len s) (elements s h) pre post s h) by done.
  split; [done|]. split.
  - unfold elements at 1 3.
    destruct (decide (arr s' = arr s)) as [Ha|Ha].
    + rewrite Ha, list_lookup_insert_eq by (by eapply lookup_lt_Some).
      rewrite Hh. destruct Hd as [Hd|[Hd|Hd]]; [congruence| |].
      * rewrite !(app_assoc pre).
        rewrite !drop_app_ge by (rewrite length_app, ?length_chain; lia).
        by rewrite !length_app, length_chain.
      * rewrite !take_drop_commute. by rewrite !take_app_le by lia.
    + by rewrite list_lookup_insert_ne.
  - rewrite list_fmap_insert. apply list_insert_id.
    rewrite list_lookup_fmap, Hh. simpl.
    by rewrite !length_app, length_chain.
Qed.

(** X5. After [ChainIDs], element i of the slice is what [ChainID]
    returns for the first i+1 elements of the slice as it was before. *)
Theorem ChainIDs_element_is_ChainID_of_prefix (h : Heap) (s : Slice) (i : nat) :
  valid h s → i < len s →
  ∃ h1 prefix d hp,
    ChainIDs FromBytes s h = Returned (s, h1) ∧
    slice_to s (S i) = Returned prefix ∧
    ChainID FromBytes prefix h = Returned (d, hp) ∧
    index s i h1 = Returned d.
Proof.
  intros Hv Hi. destruct (valid_split h s Hv) as (pre & post & Hh & Hpre & Hl).
  pose proof Hv as (a & Ha & Hlc & Hca).
  set (prefix := {| arr := arr s; off := off s; len := S i; cap := cap s |}).
  assert (valid h prefix) as Hvp.
  { exists a. simpl. split_and!; [done | lia | lia]. }
  assert (elements prefix h = take (S i) (elements s h)) as Hep.
  { unfold elements. simpl. rewrite Ha, take_take. f_equal. lia. }
  destruct (lookup_lt_is_Some_2 (chain FromBytes (elements s h)) i) as [d Hd];
    [rewrite length_chain; lia|].
  exists (<[arr s := pre ++ chain FromBytes (elements s h) ++ post]> h), prefix, d.
  eexists. split_and!.
  - unfold ChainIDs.
    by rewrite (ChainIDs_len_chain (len s) (elements s h) pre post s h).
  - unfold slice_to. rewrite decide_True by lia. done.
  - rewrite ChainID_returns_last_of_chain by done.
    rewrite Hep, <- chain_take, last_lookup.
    rewrite length_take, length_chain, Hl.
    replace (pred (S i `min` len s)) with i by lia.
    rewrite lookup_take_lt by lia. by rewrite Hd.
  - unfold index. rewrite decide_True by done.
    rewrite list_lookup_insert_eq by (by eapply lookup_lt_Some). simpl.
    rewrite lookup_app_r by lia.
    rewrite lookup_app_l by (rewrite length_chain; lia).
    replace (off s + i - length pre) with i by lia. by rewrite Hd.
Qed.

End Chain.

Lemma ChainID_returns_last_of_chain_witness :
  ChainID (λ b, "<" +:+ b +:+ ">") (mkSlice 0 1 2 3) [["A"; "B"; "C"; "D"]]
  = Returned ("<B C>", [["A"; "B"; "C"; "D"]; ["B"; "<B C>"]]).
Proof.
  apply (ChainID_returns_last_of_chain (λ b, "<" +:+ b +:+ ">")
           [["A"; "B"; "C"; "D"]] (mkSlice 0 1 2 3)).
  exists ["A"; "B"; "C"; "D"]. simpl. split_and!; [reflexivity | lia | lia].
Defined.

Lemma ChainID_recurrence_witness :
  ∃ d h1 h1',
    ChainID (λ b, "<" +:+ b +:+ ">") (mkSlice 0 0 2 2) [["A"; "B"]]
      = Returned (d, h1) ∧
    ChainID (λ b, "<" +:+ b +:+ ">") (mkSlice 1 0 3 3) [[]; ["A"; "B"; "C"]]
      = Returned ("<" +:+ (d +:+ " " +:+ "C") +:+ ">", h1').
Proof.
  apply (ChainID_recurrence (λ b, "<" +:+ b +:+ ">")).
  - exists ["A"; "B"]. simpl. split_and!; [reflexivity | lia | lia].
  - exists ["A"; "B"; "C"]. simpl. split_and!; [reflexivity | lia | lia].
  - discriminate.
  - reflexivity.
Defined.

Lemma ChainIDs_keeps_disjoint_slices_witness :
  ∃ h', ChainIDs (λ b, "<" +:+ b +:+ ">") (mkSlice 0 0 2 2) [["A"; "B"; "C"; "D"]]
        = Returned (mkSlice 0 0 2 2, h') ∧
        elements (mkSlice 0 2 2 2) h' = ["C"; "D"] ∧
        length <$> h' = [4].
Proof.
  apply (ChainIDs_keeps_disjoint_slices (λ b, "<" +:+ b +:+ ">")
           [["A"; "B"; "C"; "D"]] (mkSlice 0 0 2 2) (mkSlice 0 2 2 2)).
  - exists ["A"; "B"; "C"; "D"]. simpl. split_and!; [reflexivity | lia | lia].
  - right. left. simpl. lia.
Defined.

Lemma ChainIDs_element_is_ChainID_of_prefix_witness :
  ∃ h1 prefix d hp,
    ChainIDs (λ b, "<" +:+ b +:+ ">") (mkSlice 0 0 3 3) [["A"; "B"; "C"]]
      = Returned (mkSlice 0 0 3 3, h1) ∧
    slice_to (mkSlice 0 0 3 3) 2 = Returned prefix ∧
    ChainID (λ b, "<" +:+ b +:+ ">") prefix [["A"; "B"; "C"]] = Returned (d, hp) ∧
    index (mkSlice 0 0 3 3) 1 h1 = Returned d.
Proof.
  apply (ChainIDs_element_is_ChainID_of_prefix (λ b, "<" +:+ b +:+ ">")
           [["A"; "B"; "C"]] (mkSlice 0 0 3 3) 1).
  - exists ["A"; "B"; "C"]. simpl. split_and!; [reflexivity | lia | lia].
  - simpl. lia.
Defined.

Lemma ChainIDs_writes_the_chain_witness :
  ∃ h', ChainIDs (λ b, "<" +:+ b +:+ ">") (mkSlice 0 1 2 3) [["A"; "B"; "C"; "D"]]
        = Returned (mkSlice 0 1 2 3, h') ∧
        elements (mkSlice 0 1 2 3) h' = ["B"; "<B C>"].
Proof.
  apply (ChainIDs_writes_the_chain (λ b, "<" +:+ b +:+ ">")
           [["A"; "B"; "C"; "D"]] (mkSlice 0 1 2 3)).
  exists ["A"; "B"; "C"; "D"]. simpl. split_and!; [reflexivity | lia | lia].
Defined.

End rootfs_facts.

(** ** The execution service *)

Module execution_facts.

Import execution.

(** *** Running computations *)

Lemma bind_run {A B} (m : M A) (k : A → M B) (t : nat) :
  (m ≫= k) t =
  match m t with
  | (Returned a, tr, t') => let '(o, tr', t'') := k a t' in (o, tr ++ tr', t'')
  | (Panicked p, tr, t') => (Panicked p, tr, t')
  end.
Proof. reflexivity. Qed.

Lemma bind_returned {A B} (m : M A) (k : A → M B) t a tr t' o tr' t'' :
  m t = (Returned a, tr, t') → k a t' = (o, tr', t'') →
  (m ≫= k) t = (o, tr ++ tr', t'').
Proof. intros Hm Hk. rewrite bind_run, Hm, Hk. done. Qed.

Lemma bind_panicked {A B} (m : M A) (k : A → M B) t p tr t' :
  m t = (Panicked p, tr, t') → (m ≫= k) t = (Panicked p, tr, t').
Proof. intros Hm. rewrite bind_run, Hm. done. Qed.

Lemma posted_app tr tr' : posted (tr ++ tr') = posted tr ++ posted tr'.
Proof. apply omap_app. Qed.

Lemma started_app tr tr' : started (tr ++ tr') = started tr ++ started tr'.
Proof. apply omap_app. Qed.

Section Recovery.

Context `{Declarations}.

(** One process of a reaped container: one wait, one event, whatever the
    wait answers. *)
Lemma recover_process_reaped svc c p t :
  reaped c = true →
  ∃ tr, recover_process svc c p t = (Returned (), tr, S t) ∧
        summary <$> posted tr = [(Container_ID c, Process_ID p, exit_code p)] ∧
        started tr = [].
Proof.
  unfold reaped, recover_process, exit_code. intros ->.
  destruct (negb (String.eqb (Process_Status p) Stopped));
    destruct (Process_Wait p) as [sc|e] eqn:Hw;
    eexists; (split; [cbv [mbind mret M_bind M_ret Signal Wait call time_Now publishEvent];
                      rewrite ?Hw; reflexivity|]);
    split; reflexivity.
Qed.

Lemma recover_process_live svc c p t :
  reaped c = false →
  recover_process svc c p t = (Returned (), [Go c p], t).
Proof.
  unfold reaped, recover_process. intros ->. reflexivity.
Qed.

Lemma recover_processes svc c : ∀ ps t,
  ∃ tr t', range ps (recover_process svc c) t = (Returned (), tr, t') ∧
    summary <$> posted tr =
      (if reaped c then (λ p, (Container_ID c, Process_ID p, exit_code p)) <$> ps
       else []) ∧
    started tr = (if reaped c then [] else (λ p, (c, p)) <$> ps).
Proof.
  induction ps as [|p ps IH]; intros t.
  - exists [], t. split; [done|]. by destruct (reaped c).
  - destruct (reaped c) eqn:Hr.
    + destruct (recover_process_reaped svc c p t Hr) as (tr1 & H1 & Hp1 & Hs1).
      destruct (IH (S t)) as (tr2 & t2 & H2 & Hp2 & Hs2).
      exists (tr1 ++ tr2), t2. split_and!.
      * cbn [range]. by apply bind_returned with (a := ()) (t' := S t).
      * rewrite posted_app, fmap_app, Hp1, Hp2. done.
      * rewrite started_app, Hs1, Hs2. done.
    + destruct (IH t) as (tr2 & t2 & H2 & Hp2 & Hs2).
      exists ([Go c p] ++ tr2), t2. split_and!.
      * cbn [range]. apply bind_returned with (a := ()) (t' := t); [|done].
        by apply recover_process_live.
      * rewrite posted_app, fmap_app, Hp2. done.
      * rewrite started_app, Hs2. done.
Qed.

Lemma recover_container_empty svc c t :
  Container_Processes c = [] →
  recover_container svc c t = (Panicked SliceBoundsOutOfRange, [], t).
Proof.
  intros Hp. unfold recover_container. cbv zeta. rewrite Hp. reflexivity.
Qed.

Lemma recover_container_nonempty svc c t :
  Container_Processes c ≠ [] →
  recover_container svc c t = range (Container_processes c) (recover_process svc c) t.
Proof.
  intros Hp. unfold recover_container. cbv zeta.
  destruct (Container_Processes c) as [|p0 ps]; [done|].
  rewrite bind_run. unfold lift at 1, from_index.
  rewrite decide_True by (simpl; lia).
  rewrite bind_run. unfold lift at 1, at_index. simpl.
  by destruct (range (Container_processes c) (recover_process svc c) t) as [[o tr] t'].
Qed.

Lemma recover_containers svc : ∀ cs t,
  Forall (λ c, Container_Processes c ≠ []) cs →
  ∃ tr t', range cs (recover_container svc) t = (Returned (), tr, t') ∧
    summary <$> posted tr = recovery_events cs ∧
    started tr = recovery_monitors cs.
Proof.
  induction cs as [|c cs IH]; intros t Hne.
  - by exists [], t.
  - inversion Hne as [|? ? Hc Hcs]; subst.
    destruct (recover_processes svc c (Container_processes c) t)
      as (tr1 & t1 & H1 & Hp1 & Hs1).
    destruct (IH t1 Hcs) as (tr2 & t2 & H2 & Hp2 & Hs2).
    exists (tr1 ++ tr2), t2. split_and!.
    + cbn [range]. apply bind_returned with (a := ()) (t' := t1); [|done].
      by rewrite recover_container_nonempty.
    + rewrite posted_app, fmap_app, Hp1, Hp2. done.
    + rewrite started_app, Hs1, Hs2. done.
Qed.

Lemma recover_containers_panic svc : ∀ cs t,
  Exists (λ c, Container_Processes c = []) cs →
  ∃ tr t', range cs (recover_container svc) t
           = (Panicked SliceBoundsOutOfRange, tr, t').
Proof.
  induction cs as [|c cs IH]; intros t Hex.
  - inversion Hex.
  - destruct (Container_Processes c) as [|p0 ps] eqn:Hc.
    + exists [], t. cbn [range]. apply bind_panicked.
      by apply recover_container_empty.
    + inversion Hex as [? ? Hex'|? ? Hex']; subst; [congruence|].
      destruct (recover_processes svc c (Container_processes c) t)
        as (tr1 & t1 & H1 & _).
      destruct (IH t1 Hex') as (tr2 & t2 & H2).
      exists (tr1 ++ tr2), t2. cbn [range].
      apply bind_returned with (a := ()) (t' := t1); [|done].
      rewrite recover_container_nonempty; [done | congruence].
Qed.

(** Boot recovery on a listing in which every container has a process:
    the service starts, every process of every Stopped or Deleted
    container gets one exit event, in listing order and in the order of
    the stored sequence, and every other process gets a monitor. *)
Lemma New_recovers (ex : Executor) (cs : list Container) (t : nat) :
  exec_List ex = inl cs →
  Forall (λ c, Container_Processes c ≠ []) cs →
  outcome (New ex t) = Returned (Some {| executor := ex |}, None) ∧
  summary <$> posted (calls (New ex t)) = recovery_events cs ∧
  started (calls (New ex t)) = recovery_monitors cs.
Proof.
  intros Hl Hne.
  destruct (recover_containers {| executor := ex |} cs t Hne)
    as (tr & t' & Hr & Hp & Hs).
  assert (New ex t = (Returned (Some {| executor := ex |}, None),
                      [ExecutorList] ++ (tr ++ []), t')) as ->.
  { unfold New; cbv zeta; rewrite Hl.
    apply bind_returned with (a := ()) (t' := t); [done|].
    by apply bind_returned with (a := ()) (t' := t'). }
  unfold outcome, calls. cbn [fst snd]. rewrite app_nil_r.
  rewrite posted_app, started_app. done.
Qed.

Lemma New_panics (ex : Executor) (cs : list Container) (t : nat) :
  exec_List ex = inl cs →
  Exists (λ c, Container_Processes c = []) cs →
  outcome (New ex t) = Panicked SliceBoundsOutOfRange.
Proof.
  intros Hl Hex. unfold New; cbv zeta; rewrite Hl.
  destruct (recover_containers_panic {| executor := ex |} cs t Hex)
    as (tr & t' & Hr).
  rewrite bind_run. unfold call at 1. rewrite bind_run, Hr. done.
Qed.

Lemma New_list_error (ex : Executor) (e : error) (t : nat) :
  exec_List ex = inr e →
  New ex t = (Returned (None, Some e), [ExecutorList], t).
Proof.
  intros Hl. unfold New; cbv zeta; rewrite Hl. reflexivity.
Qed.

End Recovery.

Example c2_topic :
  @GetContainerProcessEventTopic decls "c2" "p3" = "containers.c2.processes.p3".
Proof. reflexivity. Qed.

Example recovery_of_c2 :
  (@New decls (executor_of [c2]) 0).1.2 =
  [ ExecutorList;
    ProcessWait (process "init" "stopped" (inl 0%Z));
    Post "containers.c2.processes.init"
      {| Event := {| Timestamp := 0; ID := "c2"; Action := "exit" |};
         PID := "init"; StatusCode := 0 |};
    ProcessSignal (process "p3" "running" (inl 137%Z)) 9;
    ProcessWait (process "p3" "running" (inl 137%Z));
    Post "containers.c2.processes.p3"
      {| Event := {| Timestamp := 1; ID := "c2"; Action := "exit" |};
         PID := "p3"; StatusCode := 137 |} ].
Proof. reflexivity. Qed.

(** *** Order of the exit events of a recovered container *)

(** C1. On the restart scenario (container [c2] Stopped, stored sequence
    [init; p3]) boot recovery starts the service and posts the exit event
    of the init process first and that of [p3] after it: the loop ranges
    over the stored sequence, not over the reordered one. *)
Theorem New_posts_init_exit_first :
  outcome (@New decls (executor_of [c2]) 0)
    = Returned (Some {| executor := executor_of [c2] |}, None) ∧
  summary <$> posted (calls (@New decls (executor_of [c2]) 0))
    = [("c2", "init", 0%Z); ("c2", "p3", 137%Z)].
Proof. split; reflexivity. Qed.

(** *** Number of exit events of a process *)

Lemma length_filter_fmap {A B C} (f : A → B) (g : A → C)
    (P : B → Prop) (Q : C → Prop) `{∀ b, Decision (P b)} `{∀ c, Decision (Q c)}
    (l : list A) :
  (∀ a, P (f a) ↔ Q (g a)) →
  length (filter P (f <$> l)) = length (filter Q (g <$> l)).
Proof.
  intros HPQ. induction l as [|a l IH]; [done|].
  rewrite !fmap_cons, !filter_cons.
  destruct (decide (P (f a))) as [HP|HP], (decide (Q (g a))) as [HQ|HQ];
    simpl; try lia; exfalso; destruct (HPQ a); tauto.
Qed.

(** C2, as the claim states it, fails.  Container [c1] runs and the
    monitor of its init process posts the exit event when the process
    exits; at the next boot the executor lists [c1] as Stopped and recovery
    posts an exit event for the same process again.  Two boots in a row on
    the same listing do the same. *)
Lemma exit_event_posted_again_by_recovery :
  length (exits_of "c1" "init"
            (calls (@monitor decls {| executor := executor_of [c1_running] |}
                      c1_running (process "init" "running" (inl 0%Z)) 0)
             ++ calls (@New decls (executor_of [c1_stopped]) 1))) = 2 ∧
  length (exits_of "c1" "init"
            (calls (@New decls (executor_of [c1_stopped]) 0)
             ++ calls (@New decls (executor_of [c1_stopped]) 1))) = 2.
Proof. split; reflexivity. Qed.

(** *** The error of a lookup that finds no process *)

(** C3. Container [c2] has no process [ghost].  [GetProcess] fails with
    the sentinel [ErrProcessNotFound]; [SignalProcess] fails with an error
    made on the spot from a message, which is not the sentinel;
    [DeleteProcess] hands back whatever the executor answers. *)
Theorem SignalProcess_error_is_not_the_sentinel :
  outcome (GetProcess {| executor := executor_of [c2] |}
             {| Req_ContainerID := "c2"; Req_ProcessID := "ghost" |} 0)
    = Returned (None, Some ErrProcessNotFound) ∧
  outcome (SignalProcess {| executor := executor_of [c2] |}
             {| Signal_ContainerID := "c2"; Signal_ProcessID := "ghost";
                Signal_Signal := 15 |} 0)
    = Returned (None, Some (Errorf "Make me a constant! Process not foumd!")) ∧
  outcome (DeleteProcess {| executor := executor_of [c2] |}
             {| Req_ContainerID := "c2"; Req_ProcessID := "ghost" |} 0)
    = Returned (emptyResponse, Some (Foreign 4)) ∧
  Errorf "Make me a constant! Process not foumd!" ≠ ErrProcessNotFound.
Proof. split_and!; [reflexivity | reflexivity | reflexivity | discriminate]. Qed.

(** *** The process monitor *)

(** C4. [monitorProcess] starts one goroutine for the process.  The
    goroutine waits once; when the wait succeeds it posts exactly one exit
    event, under the topic of the container and the process, with the
    process's ID and the status code the wait returned; when the wait
    fails it posts nothing. *)
Theorem monitor_posts_once_or_never `{Declarations}
    (svc : Service) (c : Container) (p : Process) (t : nat) :
  started (calls (monitorProcess svc c p t)) = [(c, p)] ∧
  outcome (monitor svc c p t) = Returned () ∧
  posted (calls (monitor svc c p t)) =
    match Process_Wait p with
    | inl status =>
        [(GetContainerProcessEventTopic (Container_ID c) (Process_ID p),
          {| Event := {| Timestamp := clock t;
                         ID := Container_ID c;
                         Action := "exit" |};
             PID := Process_ID p;
             StatusCode := status |})]
    | inr _ => []
    end.
Proof.
  split; [reflexivity|].
  unfold monitor, outcome, calls.
  cbv [mbind mret M_bind M_ret Wait call time_Now publishEvent].
  destruct (Process_Wait p); split; reflexivity.
Qed.

(** *** Failures during boot *)

Lemma some_empty_or_none (cs : list Container) :
  Forall (λ c, Container_Processes c ≠ []) cs ∨
  Exists (λ c, Container_Processes c = []) cs.
Proof.
  induction cs as [|c cs [IH|IH]].
  - left. constructor.
  - destruct (Container_Processes c) eqn:Hc.
    + right. by constructor.
    + left. constructor; [congruence | done].
  - right. by constructor 2.
Qed.

(** C5. [New] returns an error exactly when the executor's [List] fails.
    When [List] succeeds and every listed container has a process, [New]
    returns the service without an error, and the exit events it posts
    are those of every process of every Stopped or Deleted container of
    the listing, none left out, with [UnknownStatusCode] as the status
    code of a process whose [Wait] failed. *)
Theorem New_fails_only_on_List `{Declarations} (ex : Executor) (t : nat) :
  ((∃ svc e, outcome (New ex t) = Returned (svc, Some e))
   ↔ (∃ e, exec_List ex = inr e)) ∧
  (∀ cs, exec_List ex = inl cs →
         Forall (λ c, Container_Processes c ≠ []) cs →
         outcome (New ex t) = Returned (Some {| executor := ex |}, None) ∧
         summary <$> posted (calls (New ex t)) =
           flat_map (λ c,
             if String.eqb (Container_Status c) Stopped
                || String.eqb (Container_Status c) Deleted
             then (λ p, (Container_ID c, Process_ID p,
                         match Process_Wait p with
                         | inl sc => sc
                         | inr _ => UnknownStatusCode
                         end)) <$> Container_processes c
             else []) cs).
Proof.
  split.
  - split.
    + intros (svc & e & Hout).
      destruct (exec_List ex) as [cs|e'] eqn:Hl; [|by eauto].
      exfalso.
      destruct (some_empty_or_none cs) as [Hne|Hex].
      * destruct (New_recovers ex cs t Hl Hne) as (Hok & _). congruence.
      * rewrite (New_panics ex cs t Hl Hex) in Hout. discriminate.
    + intros (e & Hl). exists None, e. by rewrite (New_list_error ex e t Hl).
  - intros cs Hl Hne.
    destruct (New_recovers ex cs t Hl Hne) as (Hok & Hev & _). done.
Qed.

Lemma New_fails_only_on_List_witness :
  outcome (@New decls (executor_of [c3; c1_running; c2]) 0)
    = Returned (Some {| executor := executor_of [c3; c1_running; c2] |}, None) ∧
  summary <$> posted (calls (@New decls (executor_of [c3; c1_running; c2]) 0))
    = [("c3", "init", 255%Z); ("c3", "p4", 255%Z);
       ("c2", "init", 0%Z); ("c2", "p3", 137%Z)].
Proof.
  destruct (@New_fails_only_on_List decls (executor_of [c3; c1_running; c2]) 0)
    as [_ Hrec].
  destruct (Hrec [c3; c1_running; c2]) as [Hout Hev].
  - reflexivity.
  - repeat constructor; discriminate.
  - split; [exact Hout | exact Hev].
Defined.

(** *** The payload next to an error *)

(** C6. No container [ghost] exists, and container [c2] has no process
    [ghost].  [Delete] and [DeleteProcess] return the empty response next
    to the error; [Pause], [Resume] and [Start] return a nil response
    when the container cannot be loaded, and [SignalProcess] returns a
    nil response when the process is not found. *)
Theorem Pause_Resume_Start_SignalProcess_return_nil :
  outcome (Delete {| executor := executor_of [c2] |} "ghost" 0)
    = Returned (Some mkEmpty, Some (Foreign 1)) ∧
  outcome (DeleteProcess {| executor := executor_of [c2] |}
             {| Req_ContainerID := "ghost"; Req_ProcessID := "init" |} 0)
    = Returned (Some mkEmpty, Some (Foreign 1)) ∧
  outcome (Pause {| executor := executor_of [c2] |} "ghost" 0)
    = Returned (None, Some (Foreign 1)) ∧
  outcome (Resume {| executor := executor_of [c2] |} "ghost" 0)
    = Returned (None, Some (Foreign 1)) ∧
  outcome (Start {| executor := executor_of [c2] |} "ghost" 0)
    = Returned (None, Some (Foreign 1)) ∧
  outcome (SignalProcess {| executor := executor_of [c2] |}
             {| Signal_ContainerID := "c2"; Signal_ProcessID := "ghost";
                Signal_Signal := 15 |} 0)
    = Returned (None, Some (Errorf "Make me a constant! Process not foumd!")).
Proof. split_and!; reflexivity. Qed.

(** *** The process spec handed to the executor *)

(** C7. [StartProcess] calls the executor's [StartProcess] once when
    the container loads and not at all otherwise; the process spec of
    that call has [NoNewPrivileges] set, a console of 80 by 80, and the
    terminal flag, arguments, environment and working directory of the
    request. *)
Theorem StartProcess_spec (s : Service) (r : StartProcessRequest) (t : nat) :
  StartProcessOpts_Spec <$> start_opts (calls (StartProcess s r t)) =
  match exec_Load (executor s) (StartProcess_ContainerID r) with
  | inl _ =>
      [{| Terminal := api_Process_Terminal (StartProcess_Process r);
          ConsoleSize := {| Height := 80; Width := 80 |};
          Args := api_Process_Args (StartProcess_Process r);
          Env := api_Process_Env (StartProcess_Process r);
          Cwd := api_Process_Cwd (StartProcess_Process r);
          NoNewPrivileges := true |}]
  | inr _ => []
  end.
Proof.
  unfold StartProcess, calls.
  cbv [mbind mret M_bind M_ret call monitorProcess].
  destruct (exec_Load (executor s) (StartProcess_ContainerID r)) as [c|e];
    [|reflexivity].
  match goal with
  | |- context [exec_StartProcess ?e ?c ?o] =>
      destruct (exec_StartProcess e c o)
  end; reflexivity.
Qed.

(** *** Translation of the status *)

(** C8. [toGRPCContainer] copies the ID and the bundle path, maps the
    statuses "created", "running", "stopped" and "paused" to the wire
    constants of the same names, and leaves the wire status at zero for
    every other status. *)
Theorem toGRPCContainer_status `{Declarations} (c : Container) :
  api_Container_ID (toGRPCContainer c) = Container_ID c ∧
  api_Container_BundlePath (toGRPCContainer c) = Container_Bundle c ∧
  (Container_Status c = "created" →
   api_Container_Status (toGRPCContainer c) = Status_CREATED) ∧
  (Container_Status c = "running" →
   api_Container_Status (toGRPCContainer c) = Status_RUNNING) ∧
  (Container_Status c = "stopped" →
   api_Container_Status (toGRPCContainer c) = Status_STOPPED) ∧
  (Container_Status c = "paused" →
   api_Container_Status (toGRPCContainer c) = Status_PAUSED) ∧
  (Container_Status c ∉ ["created"; "running"; "stopped"; "paused"] →
   api_Container_Status (toGRPCContainer c) = 0%Z).
Proof.
  unfold toGRPCContainer.
  split_and!; try (intros ->; reflexivity).
  - repeat case_match; reflexivity.
  - repeat case_match; reflexivity.
  - intros Hnot.
    repeat match goal with
    | |- context [String.eqb ?a ?b] =>
        destruct (String.eqb_spec a b) as [Heq|_];
        [exfalso; apply Hnot; rewrite Heq; repeat constructor|]
    end.
    reflexivity.
Qed.

Lemma toGRPCContainer_status_witness :
  api_Container_Status (@toGRPCContainer decls c2) = 2%Z ∧
  api_Container_Status (@toGRPCContainer decls c3) = 0%Z.
Proof.
  split.
  - apply (@toGRPCContainer_status decls c2). reflexivity.
  - apply (@toGRPCContainer_status decls c3).
    intros Hin. repeat (apply elem_of_cons in Hin as [Hin|Hin]; [discriminate|]).
    by apply elem_of_nil in Hin.
Defined.

(** *** Containers without a process *)

(** C9. [Create] indexes element 0 of the processes of the container the
    executor created: with no process it panics on the index, with one it
    monitors the first and returns it.  [New] slices and indexes the
    processes of every listed container: it panics as soon as the listing
    has a container without a process, and starts the service when every
    listed container has one. *)
Theorem Create_and_New_need_a_process `{Declarations} :
  (∀ s r t c,
     exec_Create (executor s) (Create_ID r) (create_opts r) = inl c →
     (Container_Processes c = [] →
      outcome (Create s r t) = Panicked IndexOutOfRange) ∧
     (∀ p ps, Container_Processes c = p :: ps →
      outcome (Create s r t)
        = Returned (Some {| Create_Container := toGRPCContainer c;
                            Create_InitProcess := toGRPCProcess p |}, None) ∧
      started (calls (Create s r t)) = [(c, p)])) ∧
  (∀ ex cs t,
     exec_List ex = inl cs →
     (Exists (λ c, Container_Processes c = []) cs →
      outcome (New ex t) = Panicked SliceBoundsOutOfRange) ∧
     (Forall (λ c, Container_Processes c ≠ []) cs →
      outcome (New ex t) = Returned (Some {| executor := ex |}, None))).
Proof.
  split.
  - intros s r t c Hc.
    assert (Create s r t =
            (call (ExecutorCreate (Create_ID r) (create_opts r)) ;;
             (initProcess ← lift (at_index (Container_Processes c) 0);
              monitorProcess s c initProcess ;;
              mret (Some {| Create_Container := toGRPCContainer c;
                            Create_InitProcess := toGRPCProcess initProcess |},
                    None))) t) as ->.
    { unfold Create. fold (create_opts r). rewrite !bind_run. by rewrite Hc. }
    split.
    + intros ->. reflexivity.
    + intros p ps ->. split; reflexivity.
  - intros ex cs t Hl. split.
    + intros Hex. by apply New_panics with (cs := cs).
    + intros Hne. by destruct (New_recovers ex cs t Hl Hne) as (Hok & _).
Qed.

Lemma Create_and_New_need_a_process_witness :
  outcome (@Create decls {| executor := executor_creating c0 |}
             {| Create_ID := "c0"; Create_BundlePath := "/bundles/c0";
                Create_Console := false; Create_Stdin := "";
                Create_Stdout := ""; Create_Stderr := "" |} 0)
    = Panicked IndexOutOfRange ∧
  outcome (@New decls (executor_of [c2; c0]) 0) = Panicked SliceBoundsOutOfRange.
Proof.
  destruct (@Create_and_New_need_a_process decls) as [HCreate HNew].
  split.
  - eapply HCreate; reflexivity.
  - eapply HNew; [reflexivity|]. constructor 2. by constructor.
Defined.

(** *** Results of the operations *)

Ltac run_operation :=
  unfold outcome, calls;
  cbv [mbind mret M_bind M_ret call lift Signal monitorProcess
       Create Delete List Get Update Pause Resume Start StartProcess
       GetProcess SignalProcess DeleteProcess ListProcesses];
  intros; repeat case_match; simplify_eq/=.

(** X6. An operation that carries a payload returns, when it returns,
    either a response or an error and never both or neither. *)
Theorem payload_or_error `{Declarations} (s : Service) (t : nat) :
  (∀ r resp err, outcome (Create s r t) = Returned (resp, err) →
                 (resp = None ↔ err ≠ None)) ∧
  (∀ resp err, outcome (List s t) = Returned (resp, err) →
               (resp = None ↔ err ≠ None)) ∧
  (∀ id resp err, outcome (Get s id t) = Returned (resp, err) →
                  (resp = None ↔ err ≠ None)) ∧
  (∀ r resp err, outcome (StartProcess s r t) = Returned (resp, err) →
                 (resp = None ↔ err ≠ None)) ∧
  (∀ r resp err, outcome (GetProcess s r t) = Returned (resp, err) →
                 (resp = None ↔ err ≠ None)) ∧
  (∀ id resp err, outcome (ListProcesses s id t) = Returned (resp, err) →
                  (resp = None ↔ err ≠ None)).
Proof.
  split_and!; run_operation; split; congruence.
Qed.

Lemma payload_or_error_witness :
  (None : option GetProcessResponse) = None ↔ Some ErrProcessNotFound ≠ None.
Proof.
  eapply (@payload_or_error decls {| executor := executor_of [c2] |} 0).
  instantiate (1 := {| Req_ContainerID := "c2"; Req_ProcessID := "ghost" |}).
  reflexivity.
Defined.

(** X7. [Delete], [DeleteProcess] and [Update] return the empty
    response, never nil, whether they fail or not; [Update] never fails
    and calls nothing. *)
Theorem Delete_DeleteProcess_Update_return_empty
    (s : Service) (id : string) (r : ProcessRequest) (t : nat) :
  (∃ err, outcome (Delete s id t) = Returned (Some mkEmpty, err)) ∧
  (∃ err, outcome (DeleteProcess s r t) = Returned (Some mkEmpty, err)) ∧
  Update s id t = (Returned (Some mkEmpty, None), [], t).
Proof.
  split_and!; [| |reflexivity]; run_operation; eauto.
Qed.

(** X8. When the executor cannot load the container, every operation
    that loads one returns the executor's error as it is and does nothing
    else: no second executor call, no signal, no monitor, no event. *)
Theorem load_error_is_returned `{Declarations}
    (s : Service) (id : string) (e : error) (t : nat) :
  exec_Load (executor s) id = inr e →
  (∃ resp, Delete s id t = (Returned (resp, Some e), [ExecutorLoad id], t)) ∧
  (∃ resp, Get s id t = (Returned (resp, Some e), [ExecutorLoad id], t)) ∧
  (∃ resp, Pause s id t = (Returned (resp, Some e), [ExecutorLoad id], t)) ∧
  (∃ resp, Resume s id t = (Returned (resp, Some e), [ExecutorLoad id], t)) ∧
  (∃ resp, Start s id t = (Returned (resp, Some e), [ExecutorLoad id], t)) ∧
  (∃ resp, ListProcesses s id t = (Returned (resp, Some e), [ExecutorLoad id], t)) ∧
  (∀ r, StartProcess_ContainerID r = id →
        ∃ resp, StartProcess s r t = (Returned (resp, Some e), [ExecutorLoad id], t)) ∧
  (∀ r, Req_ContainerID r = id →
        ∃ resp, GetProcess s r t = (Returned (resp, Some e), [ExecutorLoad id], t)) ∧
  (∀ r, Signal_ContainerID r = id →
        ∃ resp, SignalProcess s r t = (Returned (resp, Some e), [ExecutorLoad id], t)) ∧
  (∀ r, Req_ContainerID r = id →
        ∃ resp, DeleteProcess s r t = (Returned (resp, Some e), [ExecutorLoad id], t)).
Proof.
  intros Hl.
  split_and!; try (intros r <-);
    cbv [mbind mret M_bind M_ret call Delete Get Pause Resume Start
         ListProcesses StartProcess GetProcess SignalProcess DeleteProcess];
    rewrite Hl; eauto.
Qed.

Lemma load_error_is_returned_witness :
  ∃ resp, Pause {| executor := executor_of [c2] |} "ghost" 0
          = (Returned (resp, Some (Foreign 1)), [ExecutorLoad "ghost"], 0).
Proof.
  apply (@load_error_is_returned decls {| executor := executor_of [c2] |}
           "ghost" (Foreign 1) 0).
  reflexivity.
Defined.

(** X9. Once the container is loaded, the error an operation returns is
    the answer of the executor call, or of the signal, it made on that
    container, as it is. *)
Theorem executor_answer_is_returned
    (s : Service) (id : string) (c : Container) (t : nat) :
  exec_Load (executor s) id = inl c →
  (∃ resp, outcome (Delete s id t) = Returned (resp, exec_Delete (executor s) c)) ∧
  (∃ resp, outcome (Pause s id t) = Returned (resp, exec_Pause (executor s) c)) ∧
  (∃ resp, outcome (Resume s id t) = Returned (resp, exec_Resume (executor s) c)) ∧
  (∃ resp, outcome (Start s id t) = Returned (resp, exec_Start (executor s) c)) ∧
  (∀ r, Req_ContainerID r = id →
        ∃ resp, outcome (DeleteProcess s r t)
                = Returned (resp, exec_DeleteProcess (executor s) c (Req_ProcessID r))) ∧
  (∀ r p, Signal_ContainerID r = id →
          Container_GetProcess c (Signal_ProcessID r) = Some p →
          ∃ resp, outcome (SignalProcess s r t)
                  = Returned (resp, Process_Signal p (Signal_Signal r))) ∧
  (∀ r e, StartProcess_ContainerID r = id →
          exec_StartProcess (executor s) c (start_process_opts r) = inr e →
          outcome (StartProcess s r t) = Returned (None, Some e)).
Proof.
  intros Hl.
  split_and!; try (intros r ? <-); try (intros r <-); intros;
    unfold outcome;
    cbv [mbind mret M_bind M_ret call Signal Delete Pause Resume Start
         StartProcess SignalProcess DeleteProcess];
    rewrite Hl; repeat case_match; simplify_eq/=; eauto;
    unfold start_process_opts in *; congruence.
Qed.

Lemma executor_answer_is_returned_witness :
  ∃ resp, outcome (Pause {| executor :=
                      executor_starting (process "p2" "running" (inl 0%Z)) |} "c4" 0)
          = Returned (resp, Some (Foreign 6)).
Proof.
  apply (executor_answer_is_returned
           {| executor := executor_starting (process "p2" "running" (inl 0%Z)) |}
           "c4" c4 0).
  reflexivity.
Defined.

(** *** What the operations do to the outside *)

(** X10. No operation posts an event, and no operation but [Create] and
    [StartProcess] starts a monitor: after boot, exit events come from
    monitors only. *)
Theorem operations_post_nothing `{Declarations} (s : Service) (t : nat) :
  (∀ r, posted (calls (Create s r t)) = []) ∧
  (∀ r, posted (calls (StartProcess s r t)) = []) ∧
  (∀ id, posted (calls (Delete s id t)) = [] ∧ started (calls (Delete s id t)) = []) ∧
  (posted (calls (List s t)) = [] ∧ started (calls (List s t)) = []) ∧
  (∀ id, posted (calls (Get s id t)) = [] ∧ started (calls (Get s id t)) = []) ∧
  (∀ id, posted (calls (Update s id t)) = [] ∧ started (calls (Update s id t)) = []) ∧
  (∀ id, posted (calls (Pause s id t)) = [] ∧ started (calls (Pause s id t)) = []) ∧
  (∀ id, posted (calls (Resume s id t)) = [] ∧ started (calls (Resume s id t)) = []) ∧
  (∀ id, posted (calls (Start s id t)) = [] ∧ started (calls (Start s id t)) = []) ∧
  (∀ r, posted (calls (GetProcess s r t)) = [] ∧
        started (calls (GetProcess s r t)) = []) ∧
  (∀ r, posted (calls (SignalProcess s r t)) = [] ∧
        started (calls (SignalProcess s r t)) = []) ∧
  (∀ r, posted (calls (DeleteProcess s r t)) = [] ∧
        started (calls (DeleteProcess s r t)) = []) ∧
  (∀ id, posted (calls (ListProcesses s id t)) = [] ∧
         started (calls (ListProcesses s id t)) = []).
Proof.
  split_and!; intros; try split;
    unfold calls, at_index;
    cbv [mbind mret M_bind M_ret call lift Signal monitorProcess
         Create Delete List Get Update Pause Resume Start StartProcess
         GetProcess SignalProcess DeleteProcess ListProcesses];
    repeat case_match; simplify_eq/=; reflexivity.
Qed.

(** X11. When the executor has created the container, or started the
    process, the operation makes these calls and no other, in this order:
    the executor call, with the ID and the streams of the request, and
    then the start of the monitor of the new process; the response carries
    the ID and the pid of that process. *)
Theorem Create_and_StartProcess_then_monitor `{Declarations}
    (s : Service) (t : nat) :
  (∀ r c p ps,
     exec_Create (executor s) (Create_ID r) (create_opts r) = inl c →
     Container_Processes c = p :: ps →
     Create s r t
     = (Returned (Some {| Create_Container := toGRPCContainer c;
                          Create_InitProcess :=
                            {| api_Process_ID := Process_ID p;
                               api_Process_Pid := Process_Pid p;
                               api_Process_Args := [];
                               api_Process_Env := [];
                               api_Process_Cwd := "";
                               api_Process_Terminal := false |} |}, None),
        [ExecutorCreate (Create_ID r) (create_opts r); Go c p], t)) ∧
  (∀ r c p,
     exec_Load (executor s) (StartProcess_ContainerID r) = inl c →
     exec_StartProcess (executor s) c (start_process_opts r) = inl p →
     StartProcess s r t
     = (Returned (Some {| StartProcess_Response_Process :=
                            {| api_Process_ID := Process_ID p;
                               api_Process_Pid := Process_Pid p;
                               api_Process_Args := [];
                               api_Process_Env := [];
                               api_Process_Cwd := "";
                               api_Process_Terminal := false |} |}, None),
        [ExecutorLoad (StartProcess_ContainerID r);
         ExecutorStartProcess c (start_process_opts r);
         Go c p], t)).
Proof.
  split.
  - intros r c p ps Hc Hp. unfold Create. fold (create_opts r).
    cbv [mbind mret M_bind M_ret call lift monitorProcess at_index].
    rewrite Hc, Hp. reflexivity.
  - intros r c p Hl Hp. unfold StartProcess. fold (start_process_opts r).
    cbv [mbind mret M_bind M_ret call monitorProcess].
    rewrite Hl, Hp. reflexivity.
Qed.

Lemma Create_and_StartProcess_then_monitor_witness :
  calls (@StartProcess
           {| executor := executor_starting (process "p2" "running" (inl 0%Z)) |}
           {| StartProcess_ContainerID := "c4";
              StartProcess_Process :=
                {| api_Process_ID := "p2"; api_Process_Pid := 0;
                   api_Process_Args := ["/bin/true"]; api_Process_Env := [];
                   api_Process_Cwd := "/"; api_Process_Terminal := false |};
              StartProcess_Console := false; StartProcess_Stdin := "";
              StartProcess_Stdout := ""; StartProcess_Stderr := "" |} 0)
  = [ExecutorLoad "c4";
     ExecutorStartProcess c4
       {| StartProcessOpts_ID := "p2";
          StartProcessOpts_Spec :=
            {| Terminal := false; ConsoleSize := {| Height := 80; Width := 80 |};
               Args := ["/bin/true"]; Env := []; Cwd := "/";
               NoNewPrivileges := true |};
          StartProcessOpts_Console := false; StartProcessOpts_Stdin := "";
          StartProcessOpts_Stdout := ""; StartProcessOpts_Stderr := "" |};
     Go c4 (process "p2" "running" (inl 0%Z))].
Proof.
  destruct (@Create_and_StartProcess_then_monitor decls
              {| executor := executor_starting (process "p2" "running" (inl 0%Z)) |} 0)
    as [_ HStart].
  erewrite HStart; reflexivity.
Defined.

(** X12. [SignalProcess] delivers one signal, the one of the request, to
    the process the container finds under the requested ID, and none when
    the container cannot be loaded or finds no such process. *)
Theorem SignalProcess_signals_the_process (s : Service) (r : SignalProcessRequest) (t : nat) :
  signalled (calls (SignalProcess s r t)) =
  match exec_Load (executor s) (Signal_ContainerID r) with
  | inl c =>
      match Container_GetProcess c (Signal_ProcessID r) with
      | Some p => [(p, Signal_Signal r)]
      | None => []
      end
  | inr _ => []
  end.
Proof.
  unfold calls, SignalProcess. cbv [mbind mret M_bind M_ret call Signal].
  repeat case_match; simplify_eq/=; reflexivity.
Qed.

(** X13. A query makes one call to the executor and nothing else,
    whatever the executor answers. *)
Theorem queries_call_the_executor_once `{Declarations} (s : Service) (t : nat) :
  calls (List s t) = [ExecutorList] ∧
  (∀ id, calls (Get s id t) = [ExecutorLoad id]) ∧
  (∀ r, calls (GetProcess s r t) = [ExecutorLoad (Req_ContainerID r)]) ∧
  (∀ id, calls (ListProcesses s id t) = [ExecutorLoad id]).
Proof.
  split_and!; intros; unfold calls;
    cbv [mbind mret M_bind M_ret call List Get GetProcess ListProcesses];
    repeat case_match; simplify_eq/=; reflexivity.
Qed.

Lemma fmap_map {A B C} (f : B → C) (g : A → B) (k : A → C) (l : list A) :
  (∀ x, f (g x) = k x) → f <$> map g l = k <$> l.
Proof.
  intros Hfg. induction l as [|x l IH]; [done|].
  cbn [map]. by rewrite !fmap_cons, Hfg, IH.
Qed.

(** X14. [List] answers with one wire container for each container of
    the executor, in the executor's order, under the same ID and bundle
    path, whatever the statuses are; [ListProcesses] does the same for the
    processes of a container, with their IDs and pids. *)
Theorem List_and_ListProcesses_keep_order `{Declarations} (s : Service) (t : nat) :
  (∀ cs, exec_List (executor s) = inl cs →
     ∃ resp, outcome (List s t) = Returned (Some resp, None) ∧
       api_Container_ID <$> List_Containers resp = Container_ID <$> cs ∧
       api_Container_BundlePath <$> List_Containers resp = Container_Bundle <$> cs) ∧
  (∀ id c, exec_Load (executor s) id = inl c →
     ∃ resp, outcome (ListProcesses s id t) = Returned (Some resp, None) ∧
       api_Process_ID <$> ListProcesses_Processes resp
         = Process_ID <$> Container_Processes c ∧
       api_Process_Pid <$> ListProcesses_Processes resp
         = Process_Pid <$> Container_Processes c).
Proof.
  assert (∀ c, api_Container_ID (toGRPCContainer c) = Container_ID c ∧
               api_Container_BundlePath (toGRPCContainer c) = Container_Bundle c)
    as Hc.
  { intros c. unfold toGRPCContainer. repeat case_match; done. }
  split.
  - intros cs Hl. eexists. unfold outcome, List.
    cbv [mbind mret M_bind M_ret call]. rewrite Hl. simpl.
    split_and!; [done | |]; apply fmap_map; intros c; apply Hc.
  - intros id c Hl. eexists. unfold outcome, ListProcesses.
    cbv [mbind mret M_bind M_ret call]. rewrite Hl. simpl.
    unfold toGRPCProcesses.
    split_and!; [done | |]; by apply fmap_map.
Qed.

Lemma List_and_ListProcesses_keep_order_witness :
  ∃ resp, outcome (@List decls {| executor := executor_of [c3; c2; c0] |} 0)
          = Returned (Some resp, None) ∧
          api_Container_ID <$> List_Containers resp = ["c3"; "c2"; "c0"] ∧
          api_Container_BundlePath <$> List_Containers resp
          = ["/bundles/c3"; "/bundles/c2"; "/bundles/c0"].
Proof.
  destruct (@List_and_ListProcesses_keep_order decls
              {| executor := executor_of [c3; c2; c0] |} 0) as [HList _].
  exact (HList [c3; c2; c0] eq_refl).
Defined.

(** *** What boot recovery does to the outside *)

Lemma keeps_bind {A B} R (m : M A) (k : A → M B) :
  sequential R → keeps R m → (∀ a, keeps R (k a)) → keeps R (m ≫= k).
Proof.
  intros [_ Hseq] Hm Hk t. rewrite bind_run.
  specialize (Hm t). destruct (m t) as [[[a|p] tr] t']; simpl in *; [|done].
  specialize (Hk a t'). destruct (k a t') as [[o tr'] t'']; simpl in *.
  by eapply Hseq.
Qed.

Lemma keeps_ret {A} R (a : A) : sequential R → keeps R (mret a).
Proof. intros [Hnil _] t. apply Hnil. Qed.

Lemma keeps_lift {A} R (o : Outcome A) : sequential R → keeps R (lift o).
Proof. intros [Hnil _] t. apply Hnil. Qed.

Lemma keeps_range {A} R (body : A → M unit) (l : list A) :
  sequential R → (∀ x, keeps R (body x)) → keeps R (range l body).
Proof.
  intros HR Hbody. induction l as [|x l IH]; simpl.
  - by apply keeps_ret.
  - apply keeps_bind; [done | apply Hbody | done].
Qed.

Section RecoveryCalls.

Context `{Declarations}.

(** The loop of [New] keeps every sequential property that its
    elementary calls keep. *)
Lemma keeps_recovery R (svc : Service) (cs : list Container) :
  sequential R →
  (∀ c p t, R t [Go c p] t) →
  (∀ p sig t, R t [ProcessSignal p sig] t) →
  (∀ p t, R t [ProcessWait p] t) →
  (∀ c p sc t,
     R t [Post (GetContainerProcessEventTopic (Container_ID c) (Process_ID p))
            {| Event := {| Timestamp := clock t; ID := Container_ID c;
                           Action := "exit" |};
               PID := Process_ID p; StatusCode := sc |}] (S t)) →
  keeps R (range cs (recover_container svc)).
Proof.
  intros HR HGo HSignal HWait HPost.
  assert (∀ c, keeps R (call c) ↔ ∀ t, R t [c] t) as Hcall by done.
  assert (∀ c p, keeps R (recover_process svc c p)) as Hp.
  { intros c p. unfold recover_process.
    destruct (_ || _).
    - apply keeps_bind; [done | |].
      + destruct (negb _); [|by apply keeps_ret].
        apply keeps_bind; [done | | intros; by apply keeps_ret].
        apply keeps_bind; [done | by apply Hcall | intros; by apply keeps_ret].
      + intros _. apply keeps_bind; [done | |].
        * apply keeps_bind; [done | by apply Hcall | intros; by apply keeps_ret].
        * intros w t. apply (HPost c p).
    - intros t. apply HGo. }
  apply keeps_range; [done|].
  intros c. unfold recover_container. cbv zeta.
  apply keeps_bind; [done | by apply keeps_lift | intros tail].
  apply keeps_bind; [done | by apply keeps_lift | intros init].
  by apply keeps_range.
Qed.

(** [New] calls [List] and, when that succeeds, runs the loop. *)
Lemma New_calls (ex : Executor) (t : nat) :
  calls (New ex t)
  = ExecutorList ::
    match exec_List ex with
    | inl cs => calls (range cs (recover_container {| executor := ex |}) t)
    | inr _ => []
    end ∧
  ticks (New ex t)
  = match exec_List ex with
    | inl cs => ticks (range cs (recover_container {| executor := ex |}) t)
    | inr _ => t
    end.
Proof.
  assert (New ex t =
          match exec_List ex with
          | inl cs =>
              let '(o, tr, t') := range cs (recover_container {| executor := ex |}) t in
              (match o with
               | Returned _ => Returned (Some {| executor := ex |}, None)
               | Panicked p => Panicked p
               end, ExecutorList :: tr, t')
          | inr e => (Returned (None, Some e), [ExecutorList], t)
          end) as ->.
  { unfold New. cbv zeta. rewrite bind_run. unfold call at 1.
    destruct (exec_List ex) as [cs|e]; [|done].
    rewrite bind_run.
    destruct (range cs (recover_container {| executor := ex |}) t)
      as [[[[]|p] tr] t']; simpl; by rewrite ?app_nil_r. }
  destruct (exec_List ex) as [cs|e]; [|done].
  by destruct (range cs (recover_container {| executor := ex |}) t) as [[o tr] t'].
Qed.

(** X15. [New] calls the executor once, for the listing, and never
    again: recovery loads, creates, starts and deletes nothing, whatever
    the listing holds. *)
Theorem New_calls_List_only (ex : Executor) (t : nat) :
  executor_calls (calls (New ex t)) = [ExecutorList].
Proof.
  destruct (New_calls ex t) as [-> _]. unfold executor_calls at 1. simpl.
  f_equal. destruct (exec_List ex) as [cs|e]; [|done].
  apply (keeps_recovery (λ _ tr _, executor_calls tr = [])); try done.
  split; [done|]. intros _ tr1 _ tr2 _ H1 H2.
  unfold executor_calls in *. by rewrite omap_app, H1, H2.
Qed.

(** X16. Every event that [New] or a monitor posts is posted under the
    topic of the container and the process it names, with the action
    "exit". *)
Theorem events_are_well_formed :
  (∀ ex t, Forall well_formed (posted (calls (New ex t)))) ∧
  (∀ svc c p t, Forall well_formed (posted (calls (monitor svc c p t)))).
Proof.
  split.
  - intros ex t. destruct (New_calls ex t) as [-> _].
    change (posted (ExecutorList :: ?tr)) with (posted tr).
    destruct (exec_List ex) as [cs|e]; [|constructor].
    apply (keeps_recovery (λ _ tr _, Forall well_formed (posted tr)));
      try (intros; by constructor).
    split; [constructor|]. intros _ tr1 _ tr2 _ H1 H2.
    rewrite posted_app. by apply Forall_app.
  - intros svc c p t. unfold monitor, calls.
    cbv [mbind mret M_bind M_ret Wait call time_Now publishEvent].
    destruct (Process_Wait p); simpl; by repeat constructor.
Qed.

(** X17. [New] reads the clock once for each event it posts and for
    nothing else, and stamps the events with the readings in the order in
    which it posts them. *)
Theorem New_stamps_in_posting_order (ex : Executor) (t : nat) :
  ticks (New ex t) = t + length (posted (calls (New ex t))) ∧
  stamps (calls (New ex t))
  = clock <$> seq t (length (posted (calls (New ex t)))).
Proof.
  destruct (New_calls ex t) as [-> ->].
  unfold stamps. change (posted (ExecutorList :: ?tr)) with (posted tr).
  destruct (exec_List ex) as [cs|e]; [|simpl; split; [lia | done]].
  apply (keeps_recovery
           (λ t tr t', t' = t + length (posted tr) ∧
                       (λ e, Timestamp (Event e.2)) <$> posted tr
                       = clock <$> seq t (length (posted tr))));
    try (intros; simpl; split; [lia | done]).
  split; [intros; simpl; split; [lia | done]|].
  intros t0 tr1 t1 tr2 t2 [-> H1] [-> H2].
  rewrite posted_app, length_app, fmap_app, H1, H2, seq_app, fmap_app.
  split; [lia | done].
Qed.

(** The run of [New], from the run of its loop. *)
Lemma New_run (ex : Executor) (t : nat) :
  New ex t =
  match exec_List ex with
  | inl cs =>
      let '(o, tr, t') := range cs (recover_container {| executor := ex |}) t in
      (match o with
       | Returned _ => Returned (Some {| executor := ex |}, None)
       | Panicked p => Panicked p
       end, ExecutorList :: tr, t')
  | inr e => (Returned (None, Some e), [ExecutorList], t)
  end.
Proof.
  unfold New. cbv zeta. rewrite bind_run. unfold call at 1.
  destruct (exec_List ex) as [cs|e]; [|done].
  rewrite bind_run.
  destruct (range cs (recover_container {| executor := ex |}) t)
    as [[[[]|p] tr] t']; simpl; by rewrite ?app_nil_r.
Qed.

(** A loop whose body returns on every element it meets: what a
    projection keeps of its calls is what it keeps of each round, in
    order. *)
Lemma range_omap {A B} (f : Call → option B) (body : A → M unit)
    (F : A → list B) (P : A → Prop) :
  (∀ x t, P x → ∃ tr t', body x t = (Returned (), tr, t') ∧ omap f tr = F x) →
  ∀ l t, Forall P l →
    ∃ tr t', range l body t = (Returned (), tr, t') ∧ omap f tr = flat_map F l.
Proof.
  intros Hbody. induction l as [|x l IH]; intros t Hl.
  - by exists [], t.
  - inversion Hl as [|? ? Hx Hl']; subst.
    destruct (Hbody x t Hx) as (tr1 & t1 & H1 & Hf1).
    destruct (IH t1 Hl') as (tr2 & t2 & H2 & Hf2).
    exists (tr1 ++ tr2), t2. split.
    + cbn [range]. by apply bind_returned with (a := ()) (t' := t1).
    + by rewrite omap_app, Hf1, Hf2.
Qed.

Lemma recovery_omap {B} (f : Call → option B) (F : Container → Process → list B)
    (ex : Executor) (cs : list Container) (t : nat) :
  (∀ c p t, ∃ tr t', recover_process {| executor := ex |} c p t = (Returned (), tr, t')
                     ∧ omap f tr = F c p) →
  exec_List ex = inl cs →
  Forall (λ c, Container_Processes c ≠ []) cs →
  omap f (calls (New ex t))
  = from_option (λ b, [b]) [] (f ExecutorList)
    ++ flat_map (λ c, flat_map (F c) (Container_processes c)) cs.
Proof.
  intros Hp Hl Hne.
  destruct (range_omap f (recover_container {| executor := ex |})
              (λ c, flat_map (F c) (Container_processes c))
              (λ c, Container_Processes c ≠ [])) with (l := cs) (t := t)
    as (tr & t' & Hr & Hf); [|done|].
  { intros c t0 Hc. rewrite recover_container_nonempty by done.
    apply range_omap with (P := λ _, True); [by auto|].
    by apply Forall_true. }
  rewrite New_run, Hl, Hr. unfold calls. cbn [fst snd].
  rewrite <- Hf. simpl. by destruct (f ExecutorList).
Qed.

Lemma flat_map_filter {A B} (b : A → bool) (g : A → B) (l : list A) :
  flat_map (λ x, if b x then [g x] else []) l = g <$> List.filter b l.
Proof.
  induction l as [|x l IH]; [done|]. simpl.
  destruct (b x); simpl; by rewrite IH.
Qed.

Lemma flat_map_nil {A B} (l : list A) : flat_map (λ _, @nil B) l = [].
Proof. by induction l. Qed.

(** X18. On a listing in which every container has a process, [New]
    sends the kill signal, and no other signal, to those processes of the
    Stopped and Deleted containers that are not Stopped themselves, once
    each and in order; it signals no process of another container. *)
Theorem New_kills_unstopped_processes (ex : Executor) (cs : list Container) (t : nat) :
  exec_List ex = inl cs →
  Forall (λ c, Container_Processes c ≠ []) cs →
  signalled (calls (New ex t)) = recovery_kills cs.
Proof.
  intros Hl Hne. unfold signalled.
  rewrite (recovery_omap _
             (λ c p, if reaped c
                     then if negb (String.eqb (Process_Status p) Stopped)
                          then [(p, os_Kill)] else []
                     else []) ex cs t); [| |done|done].
  - simpl. unfold recovery_kills. apply flat_map_ext. intros c.
    destruct (reaped c); [apply flat_map_filter | apply flat_map_nil].
  - intros c p t0. unfold recover_process. fold (reaped c).
    destruct (reaped c); [|by eexists _, _].
    destruct (negb _); destruct (Process_Wait p) eqn:Hw;
      eexists _, _;
      (split; [cbv [mbind mret M_bind M_ret Signal Wait call time_Now publishEvent];
               rewrite ?Hw; reflexivity | reflexivity]).
Qed.

(** X19. On such a listing [New] waits once for every process of every
    Stopped or Deleted container, in order, and for no other process. *)
Theorem New_waits_for_reaped_processes (ex : Executor) (cs : list Container) (t : nat) :
  exec_List ex = inl cs →
  Forall (λ c, Container_Processes c ≠ []) cs →
  waited (calls (New ex t)) = recovery_waits cs.
Proof.
  intros Hl Hne. unfold waited.
  rewrite (recovery_omap _ (λ c p, if reaped c then [p] else []) ex cs t);
    [| |done|done].
  - simpl. unfold recovery_waits. apply flat_map_ext. intros c.
    destruct (reaped c); [|apply flat_map_nil].
    induction (Container_processes c) as [|p ps IH]; [done|].
    simpl. by rewrite IH.
  - intros c p t0. unfold recover_process. fold (reaped c).
    destruct (reaped c); [|by eexists _, _].
    destruct (negb _); destruct (Process_Wait p) eqn:Hw;
      eexists _, _;
      (split; [cbv [mbind mret M_bind M_ret Signal Wait call time_Now publishEvent];
               rewrite ?Hw; reflexivity | reflexivity]).
Qed.

(** X20. On such a listing [New] starts one monitor for every process of
    every container that is neither Stopped nor Deleted, in order, and
    none for a process of a Stopped or Deleted container. *)
Theorem New_monitors_live_processes (ex : Executor) (cs : list Container) (t : nat) :
  exec_List ex = inl cs →
  Forall (λ c, Container_Processes c ≠ []) cs →
  started (calls (New ex t))
  = flat_map (λ c,
      if String.eqb (Container_Status c) Stopped
         || String.eqb (Container_Status c) Deleted
      then []
      else (λ p, (c, p)) <$> Container_processes c) cs.
Proof.
  intros Hl Hne. by destruct (New_recovers ex cs t Hl Hne) as (_ & _ & ->).
Qed.

Lemma range_app_returned {A} (body : A → M unit) (l1 l2 : list A) : ∀ t tr1 t1,
  range l1 body t = (Returned (), tr1, t1) →
  range (l1 ++ l2) body t
  = (let '(o, tr2, t2) := range l2 body t1 in (o, tr1 ++ tr2, t2)).
Proof.
  induction l1 as [|x l1 IH]; intros t tr1 t1 Hr.
  - inversion Hr; subst. simpl. by destruct (range l2 body t1) as [[o tr2] t2].
  - cbn [range app] in *. rewrite bind_run in *.
    destruct (body x t) as [[[[]|p] trx] tx]; [|done].
    destruct (range l1 body tx) as [[o1 tr'] t'] eqn:Hr1.
    inversion Hr; subst.
    rewrite (IH tx tr' t1 Hr1).
    destruct (range l2 body t1) as [[o tr2] t2]. by rewrite app_assoc.
Qed.

(** X21. When the listing holds a container without a process, [New]
    panics there: the containers listed before it have got their events
    and monitors, and those listed after it get neither. *)
Theorem New_stops_at_container_without_process
    (ex : Executor) (cs1 cs2 : list Container) (c : Container) (t : nat) :
  exec_List ex = inl (cs1 ++ c :: cs2) →
  Forall (λ c, Container_Processes c ≠ []) cs1 →
  Container_Processes c = [] →
  outcome (New ex t) = Panicked SliceBoundsOutOfRange ∧
  summary <$> posted (calls (New ex t)) = recovery_events cs1 ∧
  started (calls (New ex t)) = recovery_monitors cs1.
Proof.
  intros Hl Hne Hc.
  destruct (recover_containers {| executor := ex |} cs1 t Hne)
    as (tr1 & t1 & Hr & Hp & Hs).
  rewrite New_run, Hl, (range_app_returned _ _ _ _ _ _ Hr).
  cbn [range]. rewrite (bind_panicked _ _ _ _ _ _ (recover_container_empty _ c t1 Hc)).
  unfold outcome, calls. cbn [fst snd]. by rewrite app_nil_r.
Qed.

(** X22. A monitor waits once for its process and does nothing else to
    the outside but post: it sends no signal, calls the executor for
    nothing and starts no monitor. *)
Theorem monitor_only_waits (svc : Service) (c : Container) (p : Process) (t : nat) :
  waited (calls (monitor svc c p t)) = [p] ∧
  signalled (calls (monitor svc c p t)) = [] ∧
  executor_calls (calls (monitor svc c p t)) = [] ∧
  started (calls (monitor svc c p t)) = [].
Proof.
  unfold monitor, calls.
  cbv [mbind mret M_bind M_ret Wait call time_Now publishEvent].
  destruct (Process_Wait p); by split_and!.
Qed.

End RecoveryCalls.

Lemma New_kills_unstopped_processes_witness :
  signalled (calls (@New decls (executor_of [c3; c1_running; c2]) 0))
  = [(process "p4" "running" (inr (Foreign 8)), 9%Z);
     (process "p3" "running" (inl 137%Z), 9%Z)].
Proof.
  apply (@New_kills_unstopped_processes decls (executor_of [c3; c1_running; c2])
           [c3; c1_running; c2] 0).
  - reflexivity.
  - repeat constructor; discriminate.
Defined.

Lemma New_waits_for_reaped_processes_witness :
  waited (calls (@New decls (executor_of [c1_running; c2]) 0))
  = [process "init" "stopped" (inl 0%Z); process "p3" "running" (inl 137%Z)].
Proof.
  apply (@New_waits_for_reaped_processes decls (executor_of [c1_running; c2])
           [c1_running; c2] 0).
  - reflexivity.
  - repeat constructor; discriminate.
Defined.

Lemma New_monitors_live_processes_witness :
  started (calls (@New decls (executor_of [c3; c1_running; c2]) 0))
  = [(c1_running, process "init" "running" (inl 0%Z))].
Proof.
  apply (@New_monitors_live_processes decls (executor_of [c3; c1_running; c2])
           [c3; c1_running; c2] 0).
  - reflexivity.
  - repeat constructor; discriminate.
Defined.

Lemma New_stops_at_container_without_process_witness :
  outcome (@New decls (executor_of [c2; c0; c3]) 0) = Panicked SliceBoundsOutOfRange ∧
  summary <$> posted (calls (@New decls (executor_of [c2; c0; c3]) 0))
    = [("c2", "init", 0%Z); ("c2", "p3", 137%Z)] ∧
  started (calls (@New decls (executor_of [c2; c0; c3]) 0)) = [].
Proof.
  apply (@New_stops_at_container_without_process decls
           (executor_of [c2; c0; c3]) [c2] [c3] c0 0).
  - reflexivity.
  - repeat constructor; discriminate.
  - reflexivity.
Defined.

(** *** Exit events of a process within one service lifetime *)

Section Lifetime.

Context `{Declarations}.

Lemma first_without_process (cs : list Container) :
  Exists (λ c, Container_Processes c = []) cs →
  ∃ cs1 c cs2, cs = cs1 ++ c :: cs2 ∧
               Forall (λ c, Container_Processes c ≠ []) cs1 ∧
               Container_Processes c = [].
Proof.
  induction cs as [|c cs IH]; intros Hex; [inversion Hex|].
  destruct (Container_Processes c) as [|p ps] eqn:Hc.
  - exists [], c, cs. by split_and!.
  - inversion Hex as [? ? Hc'|? ? Hex']; subst; [congruence|].
    destruct (IH Hex') as (cs1 & c' & cs2 & -> & Hne & Hc').
    exists (c :: cs1), c', cs2. split_and!; [done | | done].
    constructor; [congruence | done].
Qed.

(** [New] handles the containers of a listing in order, up to the first
    one without a process if there is one. *)
Lemma New_handles_a_prefix (ex : Executor) (cs : list Container) (t : nat) :
  exec_List ex = inl cs →
  ∃ cs1 cs2, cs = cs1 ++ cs2 ∧
    summary <$> posted (calls (New ex t)) = recovery_events cs1 ∧
    started (calls (New ex t)) = recovery_monitors cs1.
Proof.
  intros Hl. destruct (some_empty_or_none cs) as [Hne|Hex].
  - exists cs, []. rewrite app_nil_r.
    by destruct (New_recovers ex cs t Hl Hne) as (_ & ? & ?).
  - destruct (first_without_process cs Hex) as (cs1 & c & cs2 & -> & Hne & Hc).
    exists cs1, (c :: cs2). split; [done|].
    destruct (recover_containers {| executor := ex |} cs1 t Hne)
      as (tr1 & t1 & Hr & Hp & Hs).
    rewrite New_run, Hl, (range_app_returned _ _ _ _ _ _ Hr).
    cbn [range].
    rewrite (bind_panicked _ _ _ _ _ _ (recover_container_empty _ c t1 Hc)).
    unfold calls. cbn [fst snd]. by rewrite app_nil_r.
Qed.

Lemma exits_of_app cid pid tr tr' :
  exits_of cid pid (tr ++ tr') = exits_of cid pid tr ++ exits_of cid pid tr'.
Proof. unfold exits_of. by rewrite posted_app, fmap_app, list.filter_app. Qed.

(** Every process of a listing is on one side only: its container is
    reaped, or its processes are monitored. *)
Lemma reaped_or_monitored cid pid (cs : list Container) :
  length (filter (λ e, e.1.1 = cid ∧ e.1.2 = pid) (recovery_events cs))
  + length (filter (λ m, Container_ID m.1 = cid ∧ Process_ID m.2 = pid)
              (recovery_monitors cs))
  = length (filter (λ e, e.1 = cid ∧ e.2 = pid) (listing cs)).
Proof.
  induction cs as [|c cs IH]; [done|].
  unfold recovery_events, recovery_monitors, listing in *. cbn [flat_map].
  rewrite !list.filter_app, !length_app, <- IH.
  destruct (reaped c).
  - rewrite (length_filter_fmap
               (λ p, (Container_ID c, Process_ID p, exit_code p))
               (λ p, (Container_ID c, Process_ID p))
               (λ e, e.1.1 = cid ∧ e.1.2 = pid) (λ e, e.1 = cid ∧ e.2 = pid))
      by done.
    simpl. lia.
  - rewrite (length_filter_fmap
               (λ p, (c, p)) (λ p, (Container_ID c, Process_ID p))
               (λ m, Container_ID m.1 = cid ∧ Process_ID m.2 = pid)
               (λ e, e.1 = cid ∧ e.2 = pid))
      by done.
    simpl. lia.
Qed.

Lemma monitor_exits cid pid svc c p t :
  length (exits_of cid pid (calls (monitor svc c p t)))
  ≤ length (filter (λ m, Container_ID m.1 = cid ∧ Process_ID m.2 = pid) [(c, p)]).
Proof.
  unfold monitor, calls, exits_of.
  cbv [mbind mret M_bind M_ret Wait call time_Now publishEvent].
  destruct (Process_Wait p); simpl; [|lia].
  rewrite !filter_cons, !filter_nil. simpl.
  destruct (decide (Container_ID c = cid ∧ Process_ID p = pid)); simpl; lia.
Qed.

Lemma run_monitors_exits cid pid svc : ∀ ms ts,
  length (exits_of cid pid (run_monitors svc ms ts))
  ≤ length (filter (λ m, Container_ID m.1 = cid ∧ Process_ID m.2 = pid) ms).
Proof.
  induction ms as [|[c p] ms IH]; intros ts; [done|].
  rewrite (list.filter_app _ [(c, p)] ms), length_app.
  destruct ts as [|[t|] ts]; cbn [run_monitors].
  - simpl. lia.
  - rewrite exits_of_app, length_app.
    pose proof (monitor_exits cid pid svc c p t). specialize (IH ts). lia.
  - specialize (IH ts). lia.
Qed.

Lemma exits_of_New cid pid (ex : Executor) (cs1 : list Container) (t : nat) :
  summary <$> posted (calls (New ex t)) = recovery_events cs1 →
  length (exits_of cid pid (calls (New ex t)))
  = length (filter (λ e, e.1.1 = cid ∧ e.1.2 = pid) (recovery_events cs1)).
Proof.
  intros <-. unfold exits_of. by apply length_filter_fmap.
Qed.

Lemma one_path_per_process cid pid (ex : Executor) (cs : list Container) (t : nat) :
  exec_List ex = inl cs →
  length (exits_of cid pid (calls (New ex t)))
  + length (filter (λ m, Container_ID m.1 = cid ∧ Process_ID m.2 = pid)
              (started (calls (New ex t))))
  ≤ length (filter (λ e, e.1 = cid ∧ e.2 = pid) (listing cs)).
Proof.
  intros Hl.
  destruct (New_handles_a_prefix ex cs t Hl) as (cs1 & cs2 & -> & Hp & Hs).
  rewrite (exits_of_New cid pid ex cs1 t Hp), Hs, reaped_or_monitored.
  unfold listing. rewrite flat_map_app, list.filter_app, length_app. lia.
Qed.

End Lifetime.

(** C2, amended.  Within one service lifetime a process that the
    executor's listing names at most once gets at most one exit event
    over both paths.  A monitor posts at most one event.  At boot [New]
    puts such a process on one path only: the events it posts for the
    process and the monitors it starts for it are at most one in all.
    So the calls of the lifetime, recovery and the monitors it started in
    any interleaving, each monitor run to its end or not yet returned,
    hold at most one exit event of the process.  From one lifetime to the
    next the bound is lost: on a listing in which every container has a
    process, one recovery pass posts for a process exactly as many exit
    events as the listing has entries for it in Stopped or Deleted
    containers, whatever was posted before. *)
Theorem exit_events_per_monitor_and_per_recovery `{Declarations} :
  (∀ svc c p t, length (posted (calls (monitor svc c p t))) ≤ 1) ∧
  (∀ ex cs t cid pid,
     exec_List ex = inl cs →
     length (filter (λ e, e.1 = cid ∧ e.2 = pid) (listing cs)) ≤ 1 →
     length (exits_of cid pid (calls (New ex t)))
     + length (filter (λ m, Container_ID m.1 = cid ∧ Process_ID m.2 = pid)
                 (started (calls (New ex t)))) ≤ 1) ∧
  (∀ ex cs t ts tr cid pid,
     exec_List ex = inl cs →
     length (filter (λ e, e.1 = cid ∧ e.2 = pid) (listing cs)) ≤ 1 →
     tr ≡ₚ lifetime ex ts t →
     length (exits_of cid pid tr) ≤ 1) ∧
  (∀ ex cs t cid pid,
     exec_List ex = inl cs →
     Forall (λ c, Container_Processes c ≠ []) cs →
     length (exits_of cid pid (calls (New ex t)))
     = length (filter (λ e, e.1.1 = cid ∧ e.1.2 = pid) (recovery_events cs))).
Proof.
  split_and!.
  - intros svc c p t. unfold monitor, calls.
    cbv [mbind mret M_bind M_ret Wait call time_Now publishEvent].
    destruct (Process_Wait p); simpl; lia.
  - intros ex cs t cid pid Hl Hone.
    pose proof (one_path_per_process cid pid ex cs t Hl). lia.
  - intros ex cs t ts tr cid pid Hl Hone Hperm.
    assert (length (exits_of cid pid tr)
            = length (exits_of cid pid (lifetime ex ts t))) as ->.
    { unfold exits_of, posted. by rewrite Hperm. }
    unfold lifetime. rewrite exits_of_app, length_app.
    pose proof (one_path_per_process cid pid ex cs t Hl).
    pose proof (run_monitors_exits cid pid {| executor := ex |}
                  (started (calls (New ex t))) ts).
    lia.
  - intros ex cs t cid pid Hl Hne.
    destruct (New_recovers ex cs t Hl Hne) as (_ & Hp & _).
    by apply exits_of_New.
Qed.

Lemma exit_events_per_monitor_and_per_recovery_witness :
  length (exits_of "c1" "init"
            (@lifetime decls (executor_of [c3; c1_running; c2]) [Some 7] 0)) ≤ 1 ∧
  length (exits_of "c2" "p3"
            (@lifetime decls (executor_of [c0; c2]) [] 0)) ≤ 1 ∧
  length (exits_of "c2" "p3" (calls (@New decls (executor_of [c2]) 0)))
  = length (filter (λ e, e.1.1 = "c2" ∧ e.1.2 = "p3")
              (@recovery_events decls [c2])).
Proof.
  destruct (@exit_events_per_monitor_and_per_recovery decls)
    as (_ & _ & Hlife & Hpass).
  split_and!.
  - apply (Hlife (executor_of [c3; c1_running; c2]) [c3; c1_running; c2] 0
             [Some 7]); [reflexivity | vm_compute; lia | reflexivity].
  - apply (Hlife (executor_of [c0; c2]) [c0; c2] 0 []);
      [reflexivity | vm_compute; lia | reflexivity].
  - apply Hpass; [reflexivity | repeat constructor; discriminate].
Defined.

End execution_facts.
